(** * Mortality dashboard (app.py): start-up script and callback

    A shallow embedding of [app.py]: the reading of the three workbooks
    ([safe_read_excel] and the stripping of the labels), the start-up script
    that normalises the mortality table and merges it with the geography
    table and the cause table, the age-group labeller [map_age], the
    homicide pattern, the options of the dropdown, and the callback
    [update_all] with its seven aggregates.

    How the program is modelled.
    - A Python [str] is a string of bytes (UTF-8). [strip] and [float]
      know the ASCII white space and the ASCII digits. [float] is taken to
      skip the white space that [strip] removes; Python's [float] does not
      skip the separators FS, GS, RS and US, which the script cannot see
      since it calls [map_age] on stripped texts only.
    - A binary64 number is a [spec_float] of the standard library: [float]
      of a text is correctly rounded and [int] of a float is exact.
    - A scalar of a table is an integer, a float or a text; an empty cell is
      NaN. [astype(str)] turns NaN into the text "nan", as pandas 1 and 2
      do. The [repr] of a float and the text parser of [pandas.to_numeric]
      are parameters ([NumericText]): the script only calls them, and
      every result holds whatever they return.
    - A [DataFrame] is a list of labels and a list of rows, a row giving the
      scalar under every label. A table with one label twice is not
      represented.
    - [merge(how="left")] keeps every left row in order, once per matching
      right row; a label on both sides takes the suffix of its side. The
      cells of the right table are copied as they are, where pandas turns
      the integers of a column that receives NaN into floats of the same
      value.
    - [None] stands for an exception that stops the script at start-up:
      a month that cannot be cast to [int], or a merge whose result lacks a
      label that the script reads next or has a label twice on one side.
    - A figure is the grouped table it draws.
    - What [safe_read_excel] prints is a list of lines; the lists of labels
      that lines 51-54 print are left out. *)

From Stdlib Require Import ZArith String Ascii.
From Stdlib Require Import Floats.SpecFloat.
From stdpp Require Import base option list gmap strings pretty sorting.

Local Open Scope string_scope.
Local Open Scope Z_scope.

(** ** Python strings *)

(** [c.isspace()] on the ASCII range: TAB, LF, VT, FF, CR, FS, GS, RS, US
    and the space. *)
Definition is_space (a : ascii) : bool :=
  let n := nat_of_ascii a in
  ((9 <=? n)%nat && (n <=? 13)%nat) || ((28 <=? n)%nat && (n <=? 32)%nat).

Fixpoint lstrip (s : string) : string :=
  match s with
  | String a s' => if is_space a then lstrip s' else s
  | EmptyString => EmptyString
  end.

Fixpoint rstrip (s : string) : string :=
  match s with
  | String a s' =>
      match rstrip s' with
      | EmptyString => if is_space a then EmptyString else String a EmptyString
      | t => String a t
      end
  | EmptyString => EmptyString
  end.

(** [s.strip()] *)
Definition strip (s : string) : string := rstrip (lstrip s).

(** [str(n)] for an [int]. *)
Definition str_int (z : Z) : string := pretty z.



(** ** [float(s)] and [int(x)] *)

Definition is_digit (a : ascii) : bool :=
  let n := nat_of_ascii a in (48 <=? n)%nat && (n <=? 57)%nat.

Definition digit_val (a : ascii) : Z := Z.of_nat (nat_of_ascii a) - 48.

(** Lower-case form of an ASCII letter, for the case-insensitive [inf] and
    [nan]. *)
Definition lower (a : ascii) : ascii :=
  let n := nat_of_ascii a in
  if (65 <=? n)%nat && (n <=? 90)%nat then ascii_of_nat (n + 32) else a.

Fixpoint lower_str (s : string) : string :=
  match s with
  | String a s' => String (lower a) (lower_str s')
  | EmptyString => EmptyString
  end.

(** A run of digits read so far: its value and the number of digits. *)
Record digits := Digits { dvalue : Z; dcount : nat }.

Definition push_digit (d : digits) (a : ascii) : digits :=
  Digits (10 * dvalue d + digit_val a) (S (dcount d)).

(** The rest of a [digitpart ::= digit (["_"] digit)*] once a digit has been
    read: one underscore is allowed between two digits. *)
Fixpoint digitpart_rest (d : digits) (s : string) : digits * string :=
  match s with
  | String a s' =>
      if is_digit a then digitpart_rest (push_digit d a) s'
      else if Ascii.eqb a "_" then
        match s' with
        | String b s'' =>
            if is_digit b then digitpart_rest (push_digit d b) s'' else (d, s)
        | EmptyString => (d, s)
        end
      else (d, s)
  | EmptyString => (d, s)
  end.

(** [digitpart], continuing the digits [d]; [None] when [s] does not start
    with a digit. *)
Definition digitpart (d : digits) (s : string) : option (digits * string) :=
  match s with
  | String a s' =>
      if is_digit a then Some (digitpart_rest (push_digit d a) s') else None
  | EmptyString => None
  end.

(** [sign ::= "+" | "-"], optional: [true] for a minus sign. *)
Definition opt_sign (s : string) : bool * string :=
  match s with
  | String "+" s' => (false, s')
  | String "-" s' => (true, s')
  | _ => (false, s)
  end.

(** [number ::= [digitpart] "." digitpart | digitpart ["."]]: the digits of
    the integer and fraction parts run together, the number of fraction
    digits, and the rest of the text. *)
Definition number (s : string) : option (digits * nat * string) :=
  match digitpart (Digits 0 0) s with
  | Some (ip, String "." r) =>
      match digitpart ip r with
      | Some (m, r') => Some (m, (dcount m - dcount ip)%nat, r')
      | None => Some (ip, 0%nat, r)
      end
  | Some (ip, r) => Some (ip, 0%nat, r)
  | None =>
      match s with
      | String "." r =>
          match digitpart (Digits 0 0) r with
          | Some (m, r') => Some (m, dcount m, r')
          | None => None
          end
      | _ => None
      end
  end.

(** [exponent ::= ("e" | "E") [sign] digitpart], optional; the text must end
    after it. [None] when something else follows the number. *)
Definition exponent (s : string) : option Z :=
  match s with
  | EmptyString => Some 0
  | String a r =>
      if Ascii.eqb (lower a) "e" then
        let '(neg, r1) := opt_sign r in
        match digitpart (Digits 0 0) r1 with
        | Some (d, EmptyString) => Some (if neg then - dvalue d else dvalue d)
        | _ => None
        end
      else None
  end.

(** The binary64 value nearest to [(-1)^neg * m * 10^e] (ties to even). *)
Definition decimal_to_float (neg : bool) (m : Z) (e : Z) : spec_float :=
  match m with
  | Zpos p =>
      if 0 <=? e
      then binary_normalize 53 1024 (if neg then - (m * 10 ^ e) else m * 10 ^ e) 0 neg
      else SFdiv 53 1024 (S754_finite neg p 0)
                         (S754_finite false (Z.to_pos (10 ^ (- e))) 0)
  | _ => S754_zero neg
  end.

(** [float(s)] for a [str]; [None] is [ValueError]. *)
Definition py_float (s : string) : option spec_float :=
  let '(neg, body) := opt_sign (strip s) in
  let word := lower_str body in
  if String.eqb word "inf" || String.eqb word "infinity" then Some (S754_infinity neg)
  else if String.eqb word "nan" then Some S754_nan
  else
    '(m, nfrac, r) ← number body;
    e ← exponent r;
    Some (decimal_to_float neg (dvalue m) (e - Z.of_nat nfrac)).

(** [int(x)] for a [float]: truncation towards zero; [None] is the
    [ValueError] of a NaN or the [OverflowError] of an infinity. *)
Definition py_int (x : spec_float) : option Z :=
  match x with
  | S754_zero _ => Some 0
  | S754_finite neg m e =>
      let a := if 0 <=? e then Zpos m * 2 ^ e else Zpos m / 2 ^ (- e) in
      Some (if neg then - a else a)
  | S754_infinity _ | S754_nan => None
  end.

(** ** Age groups *)

(** The [age_map] literal, in source order. *)
Definition age_items : list (string * string) :=
  [ ("0", "Mortalidad neonatal 0-4");
    ("1", "Mortalidad neonatal 0-4");
    ("2", "Mortalidad neonatal 0-4");
    ("3", "Mortalidad neonatal 0-4");
    ("4", "Mortalidad neonatal 0-4");
    ("5", "Mortalidad infantil 1-11 meses");
    ("6", "Mortalidad infantil 1-11 meses");
    ("7", "Primera infancia 1-4");
    ("8", "Primera infancia 1-4");
    ("9", "Niñez 5-14");
    ("10", "Niñez 5-14");
    ("11", "Adolescencia 15-19");
    ("12", "Juventud 20-29");
    ("13", "Juventud 20-29");
    ("14", "Adultez temprana 30-44");
    ("15", "Adultez temprana 30-44");
    ("16", "Adultez temprana 30-44");
    ("17", "Adultez intermedia 45-59");
    ("18", "Adultez intermedia 45-59");
    ("19", "Adultez intermedia 45-59");
    ("20", "Vejez 60-84");
    ("21", "Vejez 60-84");
    ("22", "Vejez 60-84");
    ("23", "Vejez 60-84");
    ("24", "Vejez 60-84");
    ("25", "Longevidad 85+");
    ("26", "Longevidad 85+");
    ("27", "Longevidad 85+");
    ("28", "Longevidad 85+");
    ("29", "Edad desconocida / Sin información") ].

Definition age_map : gmap string string := list_to_map age_items.

(** [age_map.get(k, 'Sin info')] *)
Definition age_get (k : string) : string := default "Sin info" (age_map !! k).

(** The labels the table uses, each once. *)
Definition age_labels : list string := remove_dups (age_items.*2).

Definition map_age (code : string) : string :=
  let k := match py_float code ≫= py_int with
           | Some n => str_int n
           | None => strip code
           end in
  age_get k.

(** ** The homicide pattern *)

(** The fragment of Python's [re] syntax the script uses: a literal
    character, a character range [[lo-hi]], concatenation, alternation. *)
Inductive regex :=
  | Chr (a : ascii)
  | Range (lo hi : ascii)
  | Cat (r1 r2 : regex)
  | Alt (r1 r2 : regex).

Definition in_range (lo hi a : ascii) : bool :=
  (nat_of_ascii lo <=? nat_of_ascii a)%nat && (nat_of_ascii a <=? nat_of_ascii hi)%nat.

(** Backtracking match of [r] at the start of [s]; [k] receives what is left
    of [s] after the match. Alternatives are tried from left to right. *)
Fixpoint match_here (r : regex) (s : string) (k : string → bool) : bool :=
  match r with
  | Chr a =>
      match s with
      | String b s' => Ascii.eqb a b && k s'
      | EmptyString => false
      end
  | Range lo hi =>
      match s with
      | String b s' => in_range lo hi b && k s'
      | EmptyString => false
      end
  | Cat r1 r2 => match_here r1 s (λ s', match_here r2 s' k)
  | Alt r1 r2 => match_here r1 s k || match_here r2 s k
  end.

(** [re.search(r, s) is not None]: a match starting at some position. *)
Fixpoint re_search (r : regex) (s : string) : bool :=
  match_here r s (λ _, true) ||
  match s with
  | String _ s' => re_search r s'
  | EmptyString => false
  end.

(** [r'X9[0-9]|X95|X9'] *)
Definition homicide_pattern : regex :=
  Alt (Alt (Cat (Chr "X") (Cat (Chr "9") (Range "0" "9")))
           (Cat (Chr "X") (Cat (Chr "9") (Chr "5"))))
      (Cat (Chr "X") (Chr "9")).

(** ** Scalars and tables *)

(** A scalar of a table read from a spreadsheet: an integer, a binary64
    number or a text. An empty cell is the float NaN, as in pandas. *)
Inductive Cell :=
  | Int (z : Z)
  | Flt (x : spec_float)
  | Str (s : string).

Definition NaN : Cell := Flt S754_nan.

Definition isna (c : Cell) : bool :=
  match c with
  | Flt S754_nan => true
  | _ => false
  end.

#[global] Instance spec_float_eq_dec : EqDecision spec_float.
Proof. solve_decision. Defined.

#[global] Instance Cell_eq_dec : EqDecision Cell.
Proof. solve_decision. Defined.

(** Two conversions that the libraries perform and the script only calls:
    [repr] of a float that is not NaN, and the reading of a text as a
    number by [pandas.to_numeric] ([None] when the text is not numeric). *)
Class NumericText := {
  float_repr : spec_float → string;
  parse_number : string → option (Z + spec_float)
}.

Section Scalars.
Context `{NumericText}.

(** One element of [Series.astype(str)]. *)
Definition astype_str (c : Cell) : string :=
  match c with
  | Int z => str_int z
  | Flt x => if isna c then "nan" else float_repr x
  | Str s => s
  end.

(** One element of [pd.to_numeric(..., errors="coerce")]. *)
Definition to_numeric (c : Cell) : Z + spec_float :=
  match c with
  | Int z => inl z
  | Flt x => inr x
  | Str s => default (inr S754_nan) (parse_number s)
  end.
End Scalars.

(** One element of [Series.fillna(value)]. *)
Definition fillna (value c : Cell) : Cell := if isna c then value else c.

(** One element of [.fillna(0)] on a numeric column. *)
Definition fillna_zero (n : Z + spec_float) : Z + spec_float :=
  match n with
  | inr S754_nan => inl 0
  | _ => n
  end.

Definition int64 (z : Z) : option Z :=
  if decide (- 2 ^ 63 ≤ z < 2 ^ 63) then Some z else None.

(** One element of [.astype(int)] on a numeric column without NaN. [None]
    when the cast gives no value: pandas raises on an infinity, and a value
    beyond the int64 range has no defined result. *)
Definition astype_int (n : Z + spec_float) : option Z :=
  match n with
  | inl z => int64 z
  | inr x => py_int x ≫= int64
  end.

(** One element of [Series.replace(old, new)]. *)
Definition replace (old new c : Cell) : Cell :=
  if decide (c = old) then new else c.

(** A row gives the scalar under every label; only the labels listed in
    [columns] belong to the table. [pd.DataFrame()] is [empty_frame]. *)
Definition Row := string → Cell.

Record DataFrame := { columns : list string; rows : list Row }.

Definition empty_frame : DataFrame := {| columns := []; rows := [] |}.

Definition set_cell (name : string) (v : Cell) (r : Row) : Row :=
  λ c, if String.eqb c name then v else r c.

Definition with_column (name : string) (cols : list string) : list string :=
  if decide (name ∈ cols) then cols else cols ++ [name].

(** [df[name] = f(row)], row by row. *)
Definition assign (name : string) (f : Row → Cell) (df : DataFrame) : DataFrame :=
  {| columns := with_column name (columns df);
     rows := (λ r, set_cell name (f r) r) <$> rows df |}.

(** The same when computing an element can raise. *)
Definition assignM (name : string) (f : Row → option Cell) (df : DataFrame)
    : option DataFrame :=
  rs ← mapM (λ r, v ← f r; Some (set_cell name v r)) (rows df);
  Some {| columns := with_column name (columns df); rows := rs |}.

(** [df[cols]] for a list of labels: [KeyError] when one is missing. *)
Definition select (cols : list string) (df : DataFrame) : option DataFrame :=
  if decide (cols ⊆ columns df)
  then Some {| columns := cols; rows := rows df |}
  else None.

(** The [for] loop of [find_col]. *)
Fixpoint find_col_loop (cols candidates : list string) : option string :=
  match candidates with
  | [] => None
  | c :: cs => if decide (c ∈ cols) then Some c else find_col_loop cols cs
  end.

Definition find_col (df : DataFrame) (candidates : list string) : option string :=
  find_col_loop (columns df) candidates.

(** [if name:] for the result of [find_col]: [None] and the empty text are
    false. *)
Definition truthy_name (o : option string) : option string :=
  c ← o; if String.eqb c "" then None else Some c.

(** [if name and name in df.columns:] *)
Definition name_in (o : option string) (df : DataFrame) : option string :=
  c ← truthy_name o; if decide (c ∈ columns df) then Some c else None.

(** ** [DataFrame.merge(..., how="left")] *)

(** A label shared by both sides receives the side's suffix. *)
Definition rename (overlap : list string) (suffix : string) (c : string) : string :=
  if decide (c ∈ overlap) then c +:+ suffix else c.

(** The column that carries the label [name] once renamed by [f]. *)
Definition source (f : string → string) (cols : list string) (name : string)
    : option string :=
  snd <$> list_find (λ c, f c = name) cols.

(** A left row joined with a matching right row, or with none. *)
Definition joined (lname rname : string → string) (lcols rcols : list string)
    (l : Row) (m : option Row) : Row :=
  λ name,
    match source lname lcols name with
    | Some c => l c
    | None =>
        match source rname rcols name, m with
        | Some c, Some r => r c
        | _, _ => NaN
        end
    end.

(** The right rows whose key equals the key of the left row [l], in the
    order of the right table. *)
Definition matches (right : DataFrame) (left_on right_on : list string) (l : Row)
    : list Row :=
  filter (λ r, r <$> right_on = l <$> left_on) (rows right).

(** What a left row is joined with: each matching right row, or nothing
    when there is none. *)
Definition partners (right : DataFrame) (left_on right_on : list string) (l : Row)
    : list (option Row) :=
  match matches right left_on right_on l with
  | [] => [None]
  | ms => Some <$> ms
  end.

(** Left join on [left_on = right_on]. Every left row is kept, in order,
    once per matching right row and once when none matches. [None] is the
    [KeyError] of a missing key column or the [MergeError] of a suffix that
    produces a label twice on one side. *)
Definition merge_left (left right : DataFrame) (left_on right_on : list string)
    (suffixes : string * string) : option DataFrame :=
  let overlap := filter (λ c, c ∈ columns right) (columns left) in
  let lname := rename overlap suffixes.1 in
  let rname := rename overlap suffixes.2 in
  if decide (left_on ⊆ columns left ∧ right_on ⊆ columns right ∧
             NoDup (lname <$> columns left) ∧ NoDup (rname <$> columns right))
  then
    Some {| columns := (lname <$> columns left) ++ (rname <$> columns right);
            rows :=
              l ← rows left;
              joined lname rname (columns left) (columns right) l
                <$> partners right left_on right_on l |}
  else None.

(** ** The start-up script *)

(** The columns of a canonical record: the six that normalisation adds, and
    the four that the merges and the labeller add. *)
Definition canonical_base : list string :=
  ["COD_DEPARTAMENTO_STR"; "COD_MUNICIPIO_STR"; "MES_NUM"; "SEXO"; "GRUPO_EDAD1";
   "COD_MUERTE_STR"].

Definition canonical_fields : list string :=
  canonical_base ++ ["DEPARTAMENTO"; "MUNICIPIO"; "CAUSA_NOMBRE"; "GRUPO_EDAD_LABEL"].

(** The three tables are taken as [safe_read_excel] returns them, with the
    labels already stripped (lines 59-61); a file that is missing or cannot
    be read is [empty_frame]. *)
Section Script.
Context `{NumericText}.
Variables df_nofetal df_divipola df_codes : DataFrame.

Definition NOFETAL_cod_depto : option string :=
  find_col df_nofetal ["COD_DEPARTAMENTO"; "COD_DPTO"; "COD_DEPTO"; "COD_DANE"].
Definition NOFETAL_cod_mpio : option string :=
  find_col df_nofetal ["COD_MUNICIPIO"; "COD_MPIO"; "COD_MPIO_A"; "COD_MUN"].
Definition NOFETAL_sexo : option string := find_col df_nofetal ["SEXO"].
Definition NOFETAL_mes : option string := find_col df_nofetal ["MES"].
Definition NOFETAL_grupoedad : option string :=
  find_col df_nofetal ["GRUPO_EDAD1"; "GRUPO_EDAD"].
Definition NOFETAL_codmuerte : option string :=
  find_col df_nofetal ["COD_MUERTE"; "COD_MUERTE"; "COD_MUER"].

Definition DIV_cod_depto : option string :=
  find_col df_divipola ["COD_DEPARTAMENTO"; "COD_DEPTO"; "COD_DANE"].
Definition DIV_cod_mpio : option string :=
  find_col df_divipola ["COD_MUNICIPIO"; "COD_MPIO"].
Definition DIV_depto : option string :=
  find_col df_divipola ["DEPARTAMENTO"; "NOMBRE_DEPARTAMENTO"; "NOMBRE_DPT"].
Definition DIV_mpio : option string :=
  find_col df_divipola ["MUNICIPIO"; "NOMBRE_MUNICIPIO"].

Definition CODES_code_col : option string :=
  find_col df_codes
    ["CÓDIGO"; "CODIGO"; "Código"; "Código_CIE"; "Código_CIE10"; "Unnamed: 0"].
Definition CODES_name_col : option string :=
  find_col df_codes
    ["NOMBRE"; "NOMBRE_CAUSA"; "DESCRIPCION"; "NOMBRE_CIE"; "Descripcion"; "Nombre"].

(** [df[c].astype(str).str.strip()], one element. *)
Definition str_strip (c : string) (r : Row) : Cell := Str (strip (astype_str (r c))).

(** [pd.to_numeric(df[c], errors="coerce").fillna(0).astype(int)], one
    element. *)
Definition month_num (c : string) (r : Row) : option Cell :=
  Int <$> astype_int (fillna_zero (to_numeric (r c))).

(** The two branches of the [if] that fills a text column: the stripped
    text of the source column when there is one, the default otherwise. *)
Definition text_or (src : option string) (default : string) (r : Row) : Cell :=
  match src with
  | Some c => str_strip c r
  | None => Str default
  end.

(** The same for the month, [0] being the default. *)
Definition month_or (src : option string) (r : Row) : option Cell :=
  match src with
  | Some c => month_num c r
  | None => Some (Int 0)
  end.

(** Lines 90-120: the six canonical columns. *)
Definition df_base : option DataFrame :=
  let df := df_nofetal in
  let df := assign "COD_DEPARTAMENTO_STR" (text_or (truthy_name NOFETAL_cod_depto) "") df in
  let df := assign "COD_MUNICIPIO_STR" (text_or (truthy_name NOFETAL_cod_mpio) "") df in
  df ← assignM "MES_NUM" (month_or (name_in NOFETAL_mes df)) df;
  let df := assign "SEXO" (text_or (name_in NOFETAL_sexo df) "No disponible") df in
  let df := assign "GRUPO_EDAD1" (text_or (name_in NOFETAL_grupoedad df) "") df in
  let df := assign "COD_MUERTE_STR" (text_or (name_in NOFETAL_codmuerte df) "") df in
  Some df.

(** The canonical cells of a row [r] of [df_base], in terms of the row [r0]
    of the mortality table it is made from. *)
Definition normalised (r0 r : Row) : Prop :=
  r "COD_DEPARTAMENTO_STR" = text_or NOFETAL_cod_depto "" r0 ∧
  r "COD_MUNICIPIO_STR" = text_or NOFETAL_cod_mpio "" r0 ∧
  (∃ z, r "MES_NUM" = Int z ∧ month_or NOFETAL_mes r0 = Some (Int z)) ∧
  r "SEXO" = text_or NOFETAL_sexo "No disponible" r0 ∧
  r "GRUPO_EDAD1" = text_or NOFETAL_grupoedad "" r0 ∧
  r "COD_MUERTE_STR" = text_or NOFETAL_codmuerte "" r0 ∧
  (∀ c, c ∉ canonical_base → r c = r0 c).

(** The geography table with its two code columns as stripped text
    (lines 126-127), restricted to the four columns of line 129. *)
Definition divipola_keyed (cd cm d m : string) : option DataFrame :=
  select [cd; cm; d; m]
    (assign cm (str_strip cm) (assign cd (str_strip cd) df_divipola)).

(** Lines 125-139: the Divipola merge and the two name columns. *)
Definition geo_join (df : DataFrame) : option DataFrame :=
  match truthy_name DIV_cod_depto, truthy_name DIV_cod_mpio,
        truthy_name DIV_depto, truthy_name DIV_mpio with
  | Some cd, Some cm, Some d, Some m =>
      right ← divipola_keyed cd cm d m;
      df ← merge_left df right
             ["COD_DEPARTAMENTO_STR"; "COD_MUNICIPIO_STR"] [cd; cm] ("", "_DIV");
      if decide (d ∈ columns df ∧ m ∈ columns df) then
        let df := assign "DEPARTAMENTO"
                    (λ r, fillna (Str "Departamento desconocido") (r d)) df in
        Some (assign "MUNICIPIO"
                (λ r, fillna (Str "Municipio desconocido") (r m)) df)
      else None
  | _, _, _, _ =>
      Some (assign "MUNICIPIO" (λ _, Str "Municipio desconocido")
              (assign "DEPARTAMENTO" (λ _, Str "Departamento desconocido") df))
  end.

(** The cause table with both columns as stripped text (lines 145-146),
    restricted to the two columns of line 148. *)
Definition codes_keyed (code name : string) : option DataFrame :=
  select [code; name]
    (assign name (str_strip name) (assign code (str_strip code) df_codes)).

(** Lines 144-155: the cause merge and [CAUSA_NOMBRE]. *)
Definition cause_join (df : DataFrame) : option DataFrame :=
  match name_in CODES_code_col df_codes, name_in CODES_name_col df_codes with
  | Some code, Some name =>
      right ← codes_keyed code name;
      df ← merge_left df right ["COD_MUERTE_STR"] [code] ("_x", "_y");
      if decide (name ∈ columns df ∧ "COD_MUERTE_STR" ∈ columns df) then
        Some (assign "CAUSA_NOMBRE" (λ r, fillna (r "COD_MUERTE_STR") (r name)) df)
      else None
  | _, _ =>
      Some (assign "CAUSA_NOMBRE"
              (λ r, replace (Str "") (Str "No clasificada") (r "COD_MUERTE_STR")) df)
  end.

(** The geography rows a row of [df_base] is joined with, and the cause
    rows; a merge that is skipped joins the row with nothing. *)
Definition geo_partners (r : Row) : list (option Row) :=
  match truthy_name DIV_cod_depto, truthy_name DIV_cod_mpio,
        truthy_name DIV_depto, truthy_name DIV_mpio with
  | Some cd, Some cm, Some d, Some m =>
      from_option
        (λ right, partners right ["COD_DEPARTAMENTO_STR"; "COD_MUNICIPIO_STR"] [cd; cm] r)
        [None] (divipola_keyed cd cm d m)
  | _, _, _, _ => [None]
  end.

Definition cause_partners (r : Row) : list (option Row) :=
  match name_in CODES_code_col df_codes, name_in CODES_name_col df_codes with
  | Some code, Some name =>
      from_option (λ right, partners right ["COD_MUERTE_STR"] [code] r)
        [None] (codes_keyed code name)
  | _, _ => [None]
  end.

(** The number of records a row of [df_base] gives in each merge. *)
Definition geo_fanout (r : Row) : nat := length (geo_partners r).
Definition cause_fanout (r : Row) : nat := length (cause_partners r).

(** Line 199: [df["GRUPO_EDAD1"].apply(map_age)]. The column holds texts
    only; another scalar would be labelled through its text. *)
Definition age_label (r : Row) : Cell := Str (map_age (astype_str (r "GRUPO_EDAD1"))).

(** The table [df] the dashboard works on: lines 90-199. *)
Definition df : option DataFrame :=
  df ← df_base;
  df ← geo_join df;
  df ← cause_join df;
  Some (assign "GRUPO_EDAD_LABEL" age_label df).
End Script.

(** ** Grouping keys *)

(** The value of a scalar up to Python's [==], which is what [groupby],
    [unique] and the comparison with the selected department go by: a text,
    an infinity, or a finite number [m * 2^e] with [m] odd or zero (so that
    [5] and [5.0] have one key). NaN has no key: it equals nothing, and
    [groupby] leaves its rows out. *)
Inductive Key :=
  | KNum (m e : Z)
  | KInf (neg : bool)
  | KStr (s : string).

#[global] Instance Key_eq_dec : EqDecision Key.
Proof. solve_decision. Defined.

Fixpoint odd_part (p : positive) (e : Z) : positive * Z :=
  match p with
  | xO p' => odd_part p' (e + 1)
  | _ => (p, e)
  end.

Definition dyadic (m e : Z) : Key :=
  match m with
  | Z0 => KNum 0 0
  | Zpos p => let '(q, e') := odd_part p e in KNum (Zpos q) e'
  | Zneg p => let '(q, e') := odd_part p e in KNum (Zneg q) e'
  end.

Definition key (c : Cell) : option Key :=
  match c with
  | Int z => Some (dyadic z 0)
  | Flt (S754_zero _) => Some (KNum 0 0)
  | Flt (S754_finite neg m e) => Some (dyadic (if neg then Zneg m else Zpos m) e)
  | Flt (S754_infinity neg) => Some (KInf neg)
  | Flt S754_nan => None
  | Str s => Some (KStr s)
  end.

(** [a == b] *)
Definition py_eq (a b : Cell) : bool :=
  match key a, key b with
  | Some x, Some y => bool_decide (x = y)
  | _, _ => false
  end.

(** The order in which sorted group keys appear: numbers by value, then
    texts by code point. *)
Definition key_compare (a b : Key) : comparison :=
  match a, b with
  | KStr s, KStr t => String.compare s t
  | KStr _, _ => Gt
  | _, KStr _ => Lt
  | KInf n1, KInf n2 =>
      match n1, n2 with
      | true, false => Lt
      | false, true => Gt
      | _, _ => Eq
      end
  | KInf neg, KNum _ _ => if neg then Lt else Gt
  | KNum _ _, KInf neg => if neg then Gt else Lt
  | KNum m1 e1, KNum m2 e2 =>
      let e := Z.min e1 e2 in
      Z.compare (m1 * 2 ^ (e1 - e)) (m2 * 2 ^ (e2 - e))
  end.

Fixpoint keys_compare (a b : list Key) : comparison :=
  match a, b with
  | [], [] => Eq
  | [], _ :: _ => Lt
  | _ :: _, [] => Gt
  | x :: a', y :: b' =>
      match key_compare x y with
      | Eq => keys_compare a' b'
      | o => o
      end
  end.

Definition keys_le (a b : list Key) : Prop := keys_compare a b ≠ Gt.

#[global] Instance keys_le_dec : RelDecision keys_le.
Proof. intros a b. unfold keys_le. apply _. Defined.

(** ** The aggregates *)

(** A grouped count: one line per group key, with the group's size. *)
Definition Counts := list (list Key * nat).

(** The number of times [k] occurs in [l]. *)
Definition occurrences {K} `{EqDecision K} (l : list K) (k : K) : nat :=
  length (filter (λ k', k' = k) l).

(** The key of a row under the grouping columns [by]; none when one of
    them is NaN. *)
Definition row_key (by_ : list string) (r : Row) : option (list Key) :=
  mapM (λ c, key (r c)) by_.

(** [rows.groupby(by).size().reset_index(name=...)]: the groups sorted by
    key. *)
Definition groupby_size (by_ : list string) (rs : list Row) : Counts :=
  let ks := omap (row_key by_) rs in
  (λ k, (k, occurrences ks k)) <$> merge_sort keys_le (remove_dups ks).

Definition by_size_desc (a b : list Key * nat) : Prop := (b.2 ≤ a.2)%nat.
Definition by_size_asc (a b : list Key * nat) : Prop := (a.2 ≤ b.2)%nat.

#[global] Instance by_size_desc_dec : RelDecision by_size_desc.
Proof. intros a b. unfold by_size_desc. apply _. Defined.

#[global] Instance by_size_asc_dec : RelDecision by_size_asc.
Proof. intros a b. unfold by_size_asc. apply _. Defined.

(** [.sort_values(count, ascending=...)]. The order among groups of equal
    size is the one this merge sort gives; the script leaves it to the sort
    of NumPy. *)
Definition sort_values (ascending : bool) (t : Counts) : Counts :=
  if ascending then merge_sort by_size_asc t else merge_sort by_size_desc t.

(** [.head(n)] *)
Definition head (n : nat) (t : Counts) : Counts := take n t.

(** Sum of the count column. *)
Definition total (t : Counts) : nat := sum_list (t.*2).

(** [Series.str.contains(pattern, na=False)], one element. *)
Definition str_contains (r : regex) (c : Cell) : bool :=
  match c with
  | Str s => re_search r s
  | _ => false
  end.

(** The value the dropdown sends to the callback: [None] or a scalar. *)
Inductive PyVal :=
  | PNone
  | PVal (c : Cell).

(** [bool(v)] *)
Definition truthy (v : PyVal) : bool :=
  match v with
  | PNone => false
  | PVal (Int z) => negb (z =? 0)
  | PVal (Flt (S754_zero _)) => false
  | PVal (Flt _) => true
  | PVal (Str s) => negb (String.eqb s "")
  end.

(** [c == v] for a scalar of the table. *)
Definition val_eq (c : Cell) (v : PyVal) : bool :=
  match v with
  | PNone => false
  | PVal d => py_eq c d
  end.

Definition ALL : PyVal := PVal (Str "_ALL_").

(** Lines 276-278: the rows the aggregates are computed on. *)
Definition dff (df : DataFrame) (selected_dept : PyVal) : DataFrame :=
  if truthy selected_dept && negb (val_eq (Str "_ALL_") selected_dept)
  then {| columns := columns df;
          rows := filter (λ r, val_eq (r "DEPARTAMENTO") selected_dept) (rows df) |}
  else df.

(** The eight outputs of the callback; a figure is the table it draws. *)
Record Views := {
  geo_msg : string;
  map_fig : Counts;
  fig_mes : Counts;
  fig_homicidios : Counts;
  fig_low10 : Counts;
  fig_stack : Counts;
  fig_hist : Counts;
  table_top_causas : Counts
}.

Definition update_all (df : DataFrame) (selected_dept : PyVal) : Views :=
  let dff := rows (dff df selected_dept) in
  let muertes_depto := groupby_size ["DEPARTAMENTO"] dff in
  let mm := groupby_size ["MES_NUM"] dff in
  let hom := filter (λ r, str_contains homicide_pattern (r "COD_MUERTE_STR")) dff in
  let top_h := head 5 (sort_values false (groupby_size ["MUNICIPIO"] hom)) in
  let low10 := head 10 (sort_values true (groupby_size ["MUNICIPIO"] dff)) in
  let st := groupby_size ["DEPARTAMENTO"; "SEXO"] dff in
  let hist_df := groupby_size ["GRUPO_EDAD_LABEL"] dff in
  let top_c :=
    head 10 (sort_values false (groupby_size ["COD_MUERTE_STR"; "CAUSA_NOMBRE"] dff)) in
  {| geo_msg := ""; map_fig := muertes_depto; fig_mes := mm; fig_homicidios := top_h;
     fig_low10 := low10; fig_stack := st; fig_hist := hist_df;
     table_top_causas := top_c |}.

(** ** The page *)

(** [Series.unique()] up to [==]: pandas lists NaN among the values. *)
Fixpoint unique_from (seen : list (option Key)) (values : list Cell) : list Cell :=
  match values with
  | [] => []
  | v :: values' =>
      if decide (key v ∈ seen) then unique_from seen values'
      else v :: unique_from (key v :: seen) values'
  end.

Definition unique (col : string) (df : DataFrame) : list Cell :=
  unique_from [] ((λ r, r col) <$> rows df).

(** [Series.nunique()]: the distinct values, NaN apart. *)
Definition nunique (col : string) (df : DataFrame) : nat :=
  length (remove_dups (omap (λ r, key (r col)) (rows df))).

(** The summary card of the layout (lines 225-232). *)
Record Summary := {
  registros_totales : nat;
  departamentos_detectados : nat;
  municipios_detectados : nat
}.

Definition summary (df : DataFrame) : Summary :=
  {| registros_totales := length (rows df);
     departamentos_detectados := nunique "DEPARTAMENTO" df;
     municipios_detectados := nunique "MUNICIPIO" df |}.

(** What the browser shows: the card, written once into [app.layout] when
    the script runs, and the eight components the callback fills. *)
Record Page := { card : Summary; outputs : Views }.

(** The page as first served: the dropdown starts at ["_ALL_"]. *)
Definition initial_page (df : DataFrame) : Page :=
  {| card := summary df; outputs := update_all df ALL |}.

(** A selection in the dropdown: Dash calls [update_all] and replaces the
    components named in its [Output] list, and nothing else. *)
Definition select_dept (df : DataFrame) (page : Page) (selected_dept : PyVal) : Page :=
  {| card := card page; outputs := update_all df selected_dept |}.

(** ** Sample tables *)

(** An instance to run the script on the sample tables: an integral float
    prints as Python prints it below [1e16], and a text is a number when
    [float] reads it. *)
Definition sample_repr (x : spec_float) : string :=
  match x with
  | S754_infinity neg => if neg then "-inf" else "inf"
  | _ => from_option (λ z, str_int z +:+ ".0") "nan" (py_int x)
  end.

Definition sample_text : NumericText :=
  {| float_repr := sample_repr; parse_number := λ s, inr <$> py_float s |}.

(** A table from its labels and its lines of scalars. *)
Definition row_of (cols : list string) (values : list Cell) : Row :=
  λ c, from_option (λ i, default NaN (values !! i.1)) NaN (list_find (λ c', c' = c) cols).

Definition frame (cols : list string) (lines : list (list Cell)) : DataFrame :=
  {| columns := cols; rows := row_of cols <$> lines |}.

(** The cells of a table under the given labels, line by line. *)
Definition cells (cols : list string) (df : DataFrame) : list (list Cell) :=
  (λ r, r <$> cols) <$> rows df.

Definition nofetal_3 : DataFrame :=
  frame ["COD_DEPARTAMENTO"; "COD_MUNICIPIO"; "MES"; "SEXO"; "GRUPO_EDAD1"; "COD_MUERTE"]
    [ [Int 5; Int 1; Int 1; Int 1; Flt (S754_finite false 7 0); Str "X95"];
      [Int 5; Int 1; Int 13; Int 2; Int 12; Str " I219 "];
      [Int 8; Int 1; NaN; Int 1; NaN; Str "X88"] ].

Definition divipola_2 : DataFrame :=
  frame ["COD_DEPARTAMENTO"; "COD_MUNICIPIO"; "DEPARTAMENTO"; "MUNICIPIO"]
    [ [Int 5; Int 1; Str "ANTIOQUIA"; Str "MEDELLIN"];
      [Int 8; Int 1; Str "ATLANTICO"; Str "BARRANQUILLA"] ].

(** A geography table in which two lines share the key (5, 1). *)
Definition divipola_dup : DataFrame :=
  frame ["COD_DEPARTAMENTO"; "COD_MUNICIPIO"; "DEPARTAMENTO"; "MUNICIPIO"]
    [ [Int 5; Int 1; Str "ANTIOQUIA"; Str "MEDELLIN"];
      [Int 5; Int 1; Str "ANTIOQUIA"; Str "MEDELLÍN"] ].

Definition codes_2 : DataFrame :=
  frame ["CODIGO"; "NOMBRE"]
    [ [Str "I219"; Str " Infarto agudo del miocardio "];
      [Str "X88"; NaN] ].



(** A joined table as the dashboard holds it, reduced to the columns the
    callback reads. *)
Definition dashboard_3 : DataFrame :=
  frame canonical_fields
    [ [Str "5"; Str "1"; Int 1; Str "1"; Str "7.0"; Str "X95";
       Str "ANTIOQUIA"; Str "MEDELLIN"; Str "X95"; Str "Primera infancia 1-4"];
      [Str "5"; Str "1"; Int 13; Str "2"; Str "12"; Str "I219";
       Str "ANTIOQUIA"; Str "MEDELLIN"; Str "Infarto agudo del miocardio";
       Str "Juventud 20-29"];
      [Str "8"; Str "1"; Int 0; Str "1"; Str "nan"; Str "X88";
       Str "ATLANTICO"; Str "BARRANQUILLA"; Str "nan"; Str "Sin info"] ].

(** A joined table in which one department carries the name "_ALL_". *)
Definition dashboard_all : DataFrame :=
  frame ["DEPARTAMENTO"] [ [Str "_ALL_"]; [Str "CHOCO"] ].

(** ** Reading the workbooks *)

(** What [pd.read_excel] makes of a workbook: the labels of the header
    line, which are scalars, and the lines below it. [pd.DataFrame()] has
    no label and no line. *)
Record Sheet := { header : list Cell; lines : list (list Cell) }.

Definition no_sheet : Sheet := {| header := []; lines := [] |}.

(** What a path designates: no file, a file on which [read_excel] raises an
    exception that prints as [e], or a workbook. *)
Inductive File :=
  | Absent
  | Unreadable (e : string)
  | Workbook (sheet : Sheet).

(** A path, by [str(path)] and [path.name]. *)
Record Path := { path_str : string; path_name : string }.

(** [safe_read_excel(path)]: the table returned and the lines printed. *)
Definition safe_read_excel (path : Path) (file : File) : Sheet * list string :=
  match file with
  | Workbook sheet => (sheet, [])
  | Unreadable e => (no_sheet, ["Error leyendo " +:+ path_name path +:+ ": " +:+ e])
  | Absent => (no_sheet, ["No encontrado: " +:+ path_str path])
  end.

Section Load.
Context `{NumericText}.

(** Lines 59-61: [df.columns = [str(c).strip() for c in df.columns]]. The
    table is then read by label; of two columns whose labels become the
    same text, only the first is represented. *)
Definition strip_columns (sheet : Sheet) : DataFrame :=
  frame ((λ c, strip (astype_str c)) <$> header sheet) (lines sheet).

(** A table as the script uses it: lines 47-49 and 59-61. *)
Definition load (path : Path) (file : File) : DataFrame :=
  strip_columns (safe_read_excel path file).1.
End Load.

(** ** The dropdown *)

(** [isinstance(c, str)] *)
Definition is_text (c : Cell) : bool :=
  match c with
  | Str _ => true
  | _ => false
  end.

(** [a <= b] for two scalars that are not NaN and are both texts or both
    numbers. *)
Definition cell_le (a b : Cell) : Prop :=
  match key a, key b with
  | Some x, Some y => key_compare x y ≠ Gt
  | _, _ => True
  end.

#[global] Instance cell_le_dec : RelDecision cell_le.
Proof. intros a b. unfold cell_le. destruct (key a), (key b); apply _. Defined.

(** [sorted(values)] for scalars without NaN, no two of them equal: [None]
    is the [TypeError] of comparing a text with a number. *)
Definition sorted (values : list Cell) : option (list Cell) :=
  if forallb is_text values || forallb (λ c, negb (is_text c)) values
  then Some (merge_sort cell_le values)
  else None.

(** An option of a [dcc.Dropdown]. *)
Record DropdownOption := { label : Cell; value : Cell }.

(** Line 207: one option per department, sorted. *)
Definition dept_options (df : DataFrame) : option (list DropdownOption) :=
  let departments :=
    fillna (Str "Departamento desconocido") <$> ((λ r : Row, r "DEPARTAMENTO") <$> rows df) in
  fmap (M:=list) (λ d, {| label := d; value := d |})
    <$> sorted (unique_from [] departments).

(** Line 217: the options of the dropdown. *)
Definition dropdown_options (df : DataFrame) : option (list DropdownOption) :=
  opts ← dept_options df;
  Some ({| label := Str "Todos"; value := Str "_ALL_" |} :: opts).

(** ** The labels the script looks for *)

(** The candidate labels of lines 79-82, for the geography table, and of
    lines 84-85, for the cause table. *)
Definition geo_labels : list string :=
  ["COD_DEPARTAMENTO"; "COD_DEPTO"; "COD_DANE"; "COD_MUNICIPIO"; "COD_MPIO";
   "DEPARTAMENTO"; "NOMBRE_DEPARTAMENTO"; "NOMBRE_DPT"; "MUNICIPIO";
   "NOMBRE_MUNICIPIO"].

Definition cause_labels : list string :=
  ["CÓDIGO"; "CODIGO"; "Código"; "Código_CIE"; "Código_CIE10"; "Unnamed: 0";
   "NOMBRE"; "NOMBRE_CAUSA"; "DESCRIPCION"; "NOMBRE_CIE"; "Descripcion"; "Nombre"].

(** ** Sample files *)

(** A mortality table with an infinite month. *)
Definition nofetal_inf : DataFrame := frame ["MES"] [ [Flt (S754_infinity false)] ].

(** The three paths of lines 24-26 when the script is started from its own
    directory. *)
Definition FN_NOFETAL : Path :=
  {| path_str := "data/NoFetal2019.xlsx"; path_name := "NoFetal2019.xlsx" |}.

Definition FN_DIVIPOLA : Path :=
  {| path_str := "data/Divipola.xlsx"; path_name := "Divipola.xlsx" |}.

Definition FN_CODES : Path :=
  {| path_str := "data/CodigosDeMuerte.xlsx"; path_name := "CodigosDeMuerte.xlsx" |}.

(** A geography workbook with white space around two labels. *)
Definition divipola_sheet : Sheet :=
  {| header := [Str " COD_DEPARTAMENTO"; Str "COD_MUNICIPIO "; Str "DEPARTAMENTO";
                Str "MUNICIPIO"];
     lines := [ [Int 5; Int 1; Str "ANTIOQUIA"; Str "MEDELLIN"] ] |}.

(** * Properties *)

(** ** The age-group labeller *)

(** C6: the labeller gives "Primera infancia 1-4" for "7", "7.0" and " 7 ",
    and the label "Sin info" for "99" and for the empty text. *)
Theorem map_age_examples :
  map_age "7" = "Primera infancia 1-4" ∧
  map_age "7.0" = "Primera infancia 1-4" ∧
  map_age " 7 " = "Primera infancia 1-4" ∧
  map_age "99" = "Sin info" ∧
  map_age "" = "Sin info".
Proof. repeat split; vm_compute; reflexivity. Qed.

Lemma age_items_keys : age_items.*1 = str_int <$> seqZ 0 30.
Proof. vm_compute. reflexivity. Qed.

Lemma age_map_lookup k v : age_map !! k = Some v ↔ (k, v) ∈ age_items.
Proof.
  unfold age_map. symmetry. apply elem_of_list_to_map.
  rewrite age_items_keys. apply NoDup_fmap_2_strong; [|apply NoDup_seqZ].
  intros x y Hx Hy Heq. unfold str_int in Heq. by apply (inj pretty) in Heq.
Qed.

Lemma age_map_keys k :
  is_Some (age_map !! k) ↔ ∃ i : Z, 0 ≤ i ≤ 29 ∧ k = str_int i.
Proof.
  split.
  - intros [v Hv]. apply age_map_lookup in Hv.
    assert (Hk : k ∈ age_items.*1) by (apply list_elem_of_fmap; by exists (k, v)).
    rewrite age_items_keys in Hk. apply list_elem_of_fmap in Hk as (i & -> & Hi).
    apply elem_of_seqZ in Hi. exists i. split; [lia|done].
  - intros (i & Hi & ->).
    assert (Hk : str_int i ∈ age_items.*1).
    { rewrite age_items_keys. apply list_elem_of_fmap. exists i. split; [done|].
      apply elem_of_seqZ. lia. }
    apply list_elem_of_fmap in Hk as ([k v] & Hk & Hin). simpl in Hk. subst k.
    exists v. by apply age_map_lookup.
Qed.

Lemma age_labels_values v : v ∈ age_labels ↔ ∃ k, age_map !! k = Some v.
Proof.
  unfold age_labels. rewrite elem_of_remove_dups, list_elem_of_fmap. split.
  - intros ([k v'] & -> & Hin). exists k. by apply age_map_lookup.
  - intros (k & Hk). exists (k, v). split; [done|]. by apply age_map_lookup.
Qed.

(** C7, as the code has it: the keys of the table are exactly the decimal
    texts of 0 to 29; its values are eleven labels, the ten life stages and
    "Edad desconocida / Sin información" under "29"; a key outside the
    table gets "Sin info". *)
Theorem age_map_keys_and_labels :
  (∀ k, is_Some (age_map !! k) ↔ ∃ i : Z, 0 ≤ i ≤ 29 ∧ k = str_int i) ∧
  (∀ v, v ∈ age_labels ↔ ∃ k, age_map !! k = Some v) ∧
  NoDup age_labels ∧ length age_labels = 11%nat ∧
  age_map !! "29" = Some "Edad desconocida / Sin información" ∧
  (∀ k, age_map !! k = None → age_get k = "Sin info").
Proof.
  split_and!.
  - apply age_map_keys.
  - apply age_labels_values.
  - apply NoDup_remove_dups.
  - vm_compute. reflexivity.
  - vm_compute. reflexivity.
  - intros k Hk. unfold age_get. by rewrite Hk.
Qed.

(** C7, as stated, fails: no set of ten labels holds every value of the
    table. *)
Lemma age_map_not_ten_labels :
  ¬ ∃ labels : list string,
      length labels = 10%nat ∧ ∀ k v, age_map !! k = Some v → v ∈ labels.
Proof.
  intros (labels & Hlen & Hall).
  assert (Hsub : age_labels ⊆+ labels).
  { apply NoDup_submseteq; [apply NoDup_remove_dups|].
    intros v Hv. apply age_labels_values in Hv as [k Hk]. by eapply Hall. }
  apply submseteq_length in Hsub.
  assert (length age_labels = 11%nat) by (vm_compute; reflexivity). lia.
Qed.

(** ** The homicide pattern *)



(** ** The callback *)

Lemma dff_falsy df v : truthy v = false → dff df v = df.
Proof. intros Hv. unfold dff. by rewrite Hv. Qed.

Lemma dff_ALL df : dff df ALL = df.
Proof. reflexivity. Qed.

(** C10: with a selected value that is false as a condition (None, the
    empty text), the callback restricts nothing and returns the same
    aggregates as with "_ALL_". *)
Theorem update_all_falsy df v :
  truthy v = false →
  dff df v = df ∧ update_all df v = update_all df ALL.
Proof.
  intros Hv. split; [by apply dff_falsy|].
  unfold update_all. by rewrite dff_falsy, dff_ALL.
Qed.

Lemma update_all_falsy_witness :
  (truthy PNone = false ∧ truthy (PVal (Str "")) = false) ∧
  update_all dashboard_3 PNone = update_all dashboard_3 ALL ∧
  update_all dashboard_3 (PVal (Str "")) = update_all dashboard_3 ALL.
Proof.
  split; [split; reflexivity|].
  split; [apply (update_all_falsy dashboard_3 PNone) | apply (update_all_falsy dashboard_3 (PVal (Str "")))];
    reflexivity.
Defined.

(** C9, as the code has it: a selection replaces the eight outputs of the
    callback by those of [update_all] and leaves the summary card as it was;
    on the page first served the card shows the counts of the whole table
    whatever is selected afterwards. *)
Theorem select_dept_keeps_card :
  (∀ df page v,
     card (select_dept df page v) = card page ∧
     outputs (select_dept df page v) = update_all df v) ∧
  (∀ df v, card (select_dept df (initial_page df) v) = summary df).
Proof. split; [intros; split|intros]; reflexivity. Qed.

(** C9, as stated, fails: after selecting "ANTIOQUIA" the card still shows
    3 records, 2 departments and 2 municipalities, not the counts of the
    selected rows (2, 1 and 1). *)
Lemma select_dept_card_not_recomputed :
  card (select_dept dashboard_3 (initial_page dashboard_3) (PVal (Str "ANTIOQUIA")))
  = Build_Summary 3 2 2 ∧
  summary (dff dashboard_3 (PVal (Str "ANTIOQUIA"))) = Build_Summary 2 1 1 ∧
  card (select_dept dashboard_3 (initial_page dashboard_3) (PVal (Str "ANTIOQUIA")))
  ≠ summary (dff dashboard_3 (PVal (Str "ANTIOQUIA"))).
Proof. split_and!; [vm_compute; reflexivity..|]. vm_compute. discriminate. Qed.

(** ** Partition of the by-department counts *)

Lemma sum_list_Permutation (l1 l2 : list nat) :
  l1 ≡ₚ l2 → sum_list l1 = sum_list l2.
Proof. induction 1; simpl; lia. Qed.

Section Counting.
Context {K : Type} `{EqDecision K}.

Lemma occurrences_cons (l : list K) (x k : K) :
  occurrences (x :: l) k = ((if decide (x = k) then 1 else 0) + occurrences l k)%nat.
Proof. unfold occurrences. rewrite filter_cons. by case_decide. Qed.

Lemma sum_list_indicator (x : K) (D : list K) :
  NoDup D →
  sum_list ((λ k, if decide (x = k) then 1 else 0)%nat <$> D)
  = (if decide (x ∈ D) then 1 else 0)%nat.
Proof.
  induction 1 as [|k D Hk HD IH].
  - rewrite decide_False; [done|]. apply not_elem_of_nil.
  - rewrite fmap_cons. cbn [sum_list sum_list_with id]. rewrite IH.
    destruct (decide (x = k)) as [->|Hne].
    + rewrite (decide_False (P:=k ∈ D)) by done.
      rewrite (decide_True (P:=k ∈ k :: D)) by constructor. done.
    + destruct (decide (x ∈ D)) as [Hin|Hin].
      * rewrite (decide_True (P:=x ∈ k :: D)) by (by constructor). done.
      * rewrite (decide_False (P:=x ∈ k :: D)); [done|].
        intros Hin'. apply elem_of_cons in Hin'. tauto.
Qed.

Lemma sum_list_plus {A} (f g : A → nat) (l : list A) :
  sum_list ((λ x, f x + g x)%nat <$> l) = (sum_list (f <$> l) + sum_list (g <$> l))%nat.
Proof.
  induction l as [|a l IH]; [done|].
  rewrite !fmap_cons. cbn [sum_list sum_list_with id]. lia.
Qed.

(** The occurrences of pairwise distinct keys that cover a list add up to
    its length. *)
Lemma sum_occurrences (D l : list K) :
  NoDup D → (∀ x, x ∈ l → x ∈ D) → sum_list (occurrences l <$> D) = length l.
Proof.
  intros HD. induction l as [|x l IH]; intros Hcov.
  - unfold occurrences. simpl. by rewrite sum_list_fmap_const.
  - rewrite (list_fmap_ext (occurrences (x :: l))
               (λ k, (if decide (x = k) then 1 else 0) + occurrences l k)%nat D)
      by (intros; apply occurrences_cons).
    rewrite sum_list_plus, sum_list_indicator by done.
    rewrite decide_True by (apply Hcov; constructor).
    rewrite IH; [done|]. intros y Hy. apply Hcov. by constructor.
Qed.
End Counting.

Lemma total_groupby_size by_ rs :
  total (groupby_size by_ rs) = length (omap (row_key by_) rs).
Proof.
  unfold total, groupby_size. rewrite <- list_fmap_compose.
  set (ks := omap (row_key by_) rs).
  rewrite (sum_list_Permutation _ (occurrences ks <$> remove_dups ks)).
  - apply sum_occurrences; [apply NoDup_remove_dups|].
    intros x Hx. by apply elem_of_remove_dups.
  - apply fmap_Permutation. apply merge_sort_Permutation.
Qed.

Lemma row_key_single c r : row_key [c] r = (λ k, [k]) <$> key (r c).
Proof. unfold row_key. simpl. by destruct (key (r c)). Qed.

Lemma length_omap_row_key c rs :
  length (omap (row_key [c]) rs) = length (omap key ((λ r, r c) <$> rs)).
Proof.
  induction rs as [|r rs IH]; [done|].
  rewrite fmap_cons. cbn [omap list_omap]. rewrite row_key_single.
  destruct (key (r c)); simpl; by rewrite IH.
Qed.

Lemma py_eq_key a b : py_eq a b = true ↔ ∃ k, key a = Some k ∧ key b = Some k.
Proof.
  unfold py_eq. destruct (key a) as [x|], (key b) as [y|]; split;
    try (intros (k & ? & ?)); try discriminate.
  - intros Heq. apply bool_decide_eq_true in Heq. subst. eauto.
  - simplify_eq. by apply bool_decide_eq_true.
Qed.

(** The rows a department filter keeps are as many as the occurrences of
    the department's key. *)
Lemma length_filter_py_eq c d rs :
  length (omap (row_key [c]) (filter (λ r, val_eq (r c) (PVal d)) rs)) =
  match key d with
  | Some k => occurrences (omap key ((λ r, r c) <$> rs)) k
  | None => 0%nat
  end.
Proof.
  induction rs as [|r rs IH]; [by destruct (key d)|].
  rewrite filter_cons, fmap_cons. cbn [val_eq omap list_omap] in IH |- *.
  destruct (py_eq (r c) d) eqn:Heq.
  - apply py_eq_key in Heq as (k & Hr & Hd). rewrite Hd in IH |- *.
    rewrite decide_True by done.
    cbn [omap list_omap]. rewrite row_key_single, Hr. simpl.
    rewrite occurrences_cons, decide_True by done. simpl. f_equal. exact IH.
  - rewrite decide_False by (by intros ?).
    etrans; [exact IH|]. destruct (key d) as [k|] eqn:Hd; [|done].
    destruct (key (r c)) as [k'|] eqn:Hr; [|done].
    rewrite occurrences_cons, decide_False; [done|].
    intros ->. assert (py_eq (r c) d = true) by (apply py_eq_key; eauto). congruence.
Qed.

Lemma unique_from_keys seen vals k :
  k ∈ omap key (unique_from seen vals) → Some k ∉ seen.
Proof.
  revert seen. induction vals as [|v vals IH]; intros seen; simpl.
  - by intros ?%elem_of_nil.
  - case_decide as Hseen; [by apply IH|].
    cbn [omap list_omap]. destruct (key v) as [k'|] eqn:Hv.
    + intros [->|Hin]%elem_of_cons; [done|].
      apply IH in Hin. intros ?. apply Hin. by constructor.
    + intros Hin. apply IH in Hin. intros ?. apply Hin. by constructor.
Qed.

Lemma unique_from_NoDup seen vals : NoDup (omap key (unique_from seen vals)).
Proof.
  revert seen. induction vals as [|v vals IH]; intros seen; simpl; [constructor|].
  case_decide as Hseen; [by apply IH|].
  cbn [omap list_omap]. destruct (key v) as [k|] eqn:Hv; [|by apply IH].
  constructor; [|by apply IH].
  intros Hin%unique_from_keys. apply Hin. constructor.
Qed.

Lemma unique_from_cover seen vals k :
  k ∈ omap key vals → Some k ∈ seen ∨ k ∈ omap key (unique_from seen vals).
Proof.
  revert seen. induction vals as [|v vals IH]; intros seen; simpl.
  - by intros ?%elem_of_nil.
  - destruct (key v) as [k'|] eqn:Hv.
    + intros [->|Hin]%elem_of_cons.
      * case_decide as Hseen; [by left|]. right. cbn [omap list_omap].
        rewrite Hv. constructor.
      * case_decide as Hseen; [by apply IH|]. cbn [omap list_omap]. rewrite Hv.
        destruct (IH (Some k' :: seen) Hin) as [[Heq|?]%elem_of_cons|?].
        -- right. simplify_eq. constructor.
        -- by left.
        -- right. by constructor.
    + intros Hin. case_decide as Hseen; [by apply IH|]. cbn [omap list_omap].
      rewrite Hv. destruct (IH (None :: seen) Hin) as [[?|?]%elem_of_cons|?];
        [done|by left|by right].
Qed.

Lemma sum_list_omap_key (g : Key → nat) (U : list Cell) :
  sum_list ((λ d, match key d with Some k => g k | None => 0%nat end) <$> U)
  = sum_list (g <$> omap key U).
Proof.
  induction U as [|d U IH]; [done|].
  rewrite fmap_cons. cbn [omap list_omap sum_list sum_list_with id].
  destruct (key d); [rewrite fmap_cons|]; cbn [sum_list sum_list_with id]; lia.
Qed.

(** The departments of [unique] split the rows that have a department. *)
Lemma sum_unique_occurrences (vals : list Cell) :
  sum_list ((λ d, match key d with
                  | Some k => occurrences (omap key vals) k
                  | None => 0%nat
                  end) <$> unique_from [] vals)
  = length (omap key vals).
Proof.
  rewrite sum_list_omap_key. apply sum_occurrences; [apply unique_from_NoDup|].
  intros k Hk. destruct (unique_from_cover [] vals k Hk) as [?%elem_of_nil|?]; done.
Qed.

Lemma dff_department df d :
  truthy (PVal d) = true → py_eq (Str "_ALL_") d = false →
  rows (dff df (PVal d)) = filter (λ r, val_eq (r "DEPARTAMENTO") (PVal d)) (rows df).
Proof. intros Ht Hall. unfold dff. cbn [val_eq]. by rewrite Ht, Hall. Qed.

(** C5, as the code has it: when no department name is false as a condition
    or equal to "_ALL_", the total of the by-department counts without a
    filter is the sum of the totals obtained with one filter per distinct
    department name. *)
Theorem department_counts_partition df :
  Forall (λ d, truthy (PVal d) = true ∧ py_eq (Str "_ALL_") d = false)
         (unique "DEPARTAMENTO" df) →
  total (map_fig (update_all df ALL)) =
  sum_list ((λ d, total (map_fig (update_all df (PVal d)))) <$> unique "DEPARTAMENTO" df).
Proof.
  intros Hnames. cbn [update_all map_fig]. rewrite dff_ALL, total_groupby_size.
  rewrite length_omap_row_key, <- sum_unique_occurrences. unfold unique.
  apply (f_equal sum_list). symmetry. apply list_fmap_ext. intros i d Hd.
  rewrite Forall_lookup in Hnames. destruct (Hnames i d Hd) as [Ht Hall].
  rewrite total_groupby_size, dff_department by done.
  apply length_filter_py_eq.
Qed.

Lemma department_counts_partition_witness :
  Forall (λ d, truthy (PVal d) = true ∧ py_eq (Str "_ALL_") d = false)
         (unique "DEPARTAMENTO" dashboard_3) ∧
  total (map_fig (update_all dashboard_3 ALL)) =
  sum_list ((λ d, total (map_fig (update_all dashboard_3 (PVal d))))
              <$> unique "DEPARTAMENTO" dashboard_3).
Proof.
  assert (Hnames : Forall (λ d, truthy (PVal d) = true ∧ py_eq (Str "_ALL_") d = false)
                          (unique "DEPARTAMENTO" dashboard_3)).
  { vm_compute. repeat constructor. }
  split; [exact Hnames|]. apply (department_counts_partition dashboard_3 Hnames).
Defined.

(** C5, as stated, fails on a table with a department named "_ALL_": the
    unfiltered total is 2, while the filter "_ALL_" keeps both rows and the
    filter "CHOCO" one, 3 in all. *)
Lemma department_counts_partition_fails :
  unique "DEPARTAMENTO" dashboard_all = [Str "_ALL_"; Str "CHOCO"] ∧
  total (map_fig (update_all dashboard_all ALL)) = 2%nat ∧
  sum_list ((λ d, total (map_fig (update_all dashboard_all (PVal d))))
              <$> unique "DEPARTAMENTO" dashboard_all) = 3%nat.
Proof. split_and!; vm_compute; reflexivity. Qed.

(** ** Tables and the left join *)

Lemma elem_of_with_column c name cols :
  c ∈ with_column name cols ↔ c = name ∨ c ∈ cols.
Proof.
  unfold with_column. case_decide as Hin.
  - split; [by right|]. by intros [->|?].
  - rewrite elem_of_app, list_elem_of_singleton. tauto.
Qed.

Lemma with_column_subseteq name cols : cols ⊆ with_column name cols.
Proof. intros c Hc. apply elem_of_with_column. by right. Qed.

Lemma find_col_loop_Some cols candidates c :
  find_col_loop cols candidates = Some c → c ∈ candidates ∧ c ∈ cols.
Proof.
  induction candidates as [|x cs IH]; simpl; [done|].
  case_decide as Hin.
  - intros [= ->]. split; [constructor|done].
  - intros Hc. destruct (IH Hc). split; [by constructor|done].
Qed.

Lemma find_col_loop_None cols candidates c :
  find_col_loop cols candidates = None → c ∈ candidates → c ∉ cols.
Proof.
  induction candidates as [|x cs IH]; simpl; [by intros _ ?%elem_of_nil|].
  case_decide as Hin; [done|]. intros Hnone [->|Hc]%elem_of_cons; [done|by apply IH].
Qed.

Lemma truthy_name_Some o c : truthy_name o = Some c → o = Some c ∧ c ≠ "".
Proof.
  unfold truthy_name. destruct o as [x|]; simpl; [|done].
  destruct (String.eqb x "") eqn:Hx; [done|]. intros [= ->].
  split; [done|]. by apply String.eqb_neq.
Qed.

Lemma truthy_name_found df candidates :
  "" ∉ candidates → truthy_name (find_col df candidates) = find_col df candidates.
Proof.
  intros Hne. unfold truthy_name, find_col.
  destruct (find_col_loop _ _) as [c|] eqn:Hc; simpl; [|done].
  apply find_col_loop_Some in Hc as [Hc _].
  destruct (String.eqb c "") eqn:Heq; [|done].
  apply String.eqb_eq in Heq. by subst.
Qed.

Lemma name_in_Some o df c :
  name_in o df = Some c → o = Some c ∧ c ≠ "" ∧ c ∈ columns df.
Proof.
  unfold name_in. destruct (truthy_name o) as [x|] eqn:Hx; simpl; [|done].
  case_decide; [|done]. intros [= ->]. by apply truthy_name_Some in Hx as [-> ?].
Qed.

(** A column found in a table is still found when columns are added. *)
Lemma name_in_found df df' candidates :
  "" ∉ candidates → columns df ⊆ columns df' →
  name_in (find_col df candidates) df' = find_col df candidates.
Proof.
  intros Hne Hsub. unfold name_in. rewrite truthy_name_found by done.
  unfold find_col. destruct (find_col_loop _ _) as [c|] eqn:Hc; simpl; [|done].
  apply find_col_loop_Some in Hc as [_ Hc]. by rewrite decide_True by auto.
Qed.

Lemma append_empty_r s : s +:+ "" = s.
Proof.
  induction s as [|a s IH]; [done|].
  change (String a s +:+ "") with (String a (s +:+ "")). by rewrite IH.
Qed.

Lemma rename_empty overlap c : rename overlap "" c = c.
Proof. unfold rename. case_decide; [apply append_empty_r|done]. Qed.

Lemma rename_outside overlap suffix c : c ∉ overlap → rename overlap suffix c = c.
Proof. intros Hc. unfold rename. by rewrite decide_False. Qed.

Lemma NoDup_fmap_inj {A B} (f : A → B) (l : list A) x y :
  NoDup (f <$> l) → x ∈ l → y ∈ l → f x = f y → x = y.
Proof.
  induction l as [|a l IH]; [by intros _ ?%elem_of_nil|].
  rewrite fmap_cons, NoDup_cons. intros [Ha Hl] Hx Hy Heq.
  apply elem_of_cons in Hx as [->|Hx], Hy as [->|Hy]; [done| | |by apply IH].
  - destruct Ha. rewrite Heq. by apply list_elem_of_fmap_2.
  - destruct Ha. rewrite <- Heq. by apply list_elem_of_fmap_2.
Qed.

Lemma source_Some f cols c :
  NoDup (f <$> cols) → c ∈ cols → source f cols (f c) = Some c.
Proof.
  intros Hnd Hc. unfold source.
  destruct (list_find (λ c', f c' = f c) cols) as [[i c']|] eqn:Hfind; simpl.
  - apply list_find_Some in Hfind as (Hi & Heq & _). f_equal.
    eapply NoDup_fmap_inj; eauto. by eapply list_elem_of_lookup_2.
  - apply list_find_None in Hfind. rewrite Forall_forall in Hfind.
    by destruct (Hfind c Hc).
Qed.

Lemma source_None f cols name :
  (∀ c, c ∈ cols → f c ≠ name) → source f cols name = None.
Proof.
  intros Hne. unfold source.
  destruct (list_find _ cols) as [[i c']|] eqn:Hfind; [|done].
  apply list_find_Some in Hfind as (Hi & Heq & _).
  destruct (Hne c'); [by eapply list_elem_of_lookup_2|done].
Qed.

Lemma source_elem f cols name c : source f cols name = Some c → c ∈ cols ∧ f c = name.
Proof.
  unfold source. destruct (list_find _ cols) as [[i c']|] eqn:Hfind; [|done].
  intros [= <-]. apply list_find_Some in Hfind as (Hi & Heq & _).
  split; [by eapply list_elem_of_lookup_2|done].
Qed.

(** A left column that keeps its label is read from the left row. *)
Lemma joined_left lname rname lcols rcols l m c :
  NoDup (lname <$> lcols) → c ∈ lcols → lname c = c →
  joined lname rname lcols rcols l m c = l c.
Proof.
  intros Hnd Hc Heq. unfold joined.
  rewrite <- Heq at 1. by rewrite source_Some.
Qed.

(** A label no left column takes is read from the right row. *)
Lemma joined_right lname rname lcols rcols l m c :
  (∀ c', c' ∈ lcols → lname c' ≠ rname c) →
  NoDup (rname <$> rcols) → c ∈ rcols →
  joined lname rname lcols rcols l m (rname c) = from_option (λ r, r c) NaN m.
Proof.
  intros Hl Hnd Hc. unfold joined.
  rewrite source_None by done. rewrite source_Some by done. by destruct m.
Qed.

Lemma merge_left_Some left right left_on right_on suffixes out :
  merge_left left right left_on right_on suffixes = Some out →
  let overlap := filter (λ c, c ∈ columns right) (columns left) in
  let lname := rename overlap suffixes.1 in
  let rname := rename overlap suffixes.2 in
  NoDup (lname <$> columns left) ∧ NoDup (rname <$> columns right) ∧
  columns out = ((lname <$> columns left) ++ (rname <$> columns right))%list ∧
  rows out = l ← rows left;
             joined lname rname (columns left) (columns right) l
               <$> partners right left_on right_on l.
Proof.
  unfold merge_left. case_decide as Hok; [|done]. intros [= <-].
  destruct Hok as (_ & _ & ? & ?). done.
Qed.

Lemma length_partners right left_on right_on l :
  length (partners right left_on right_on l)
  = Nat.max 1 (length (matches right left_on right_on l)).
Proof.
  unfold partners. destruct (matches _ _ _ _) as [|r ms]; [done|].
  rewrite length_fmap. simpl. lia.
Qed.

Lemma partners_ext right left_on right_on l l' :
  l <$> left_on = l' <$> left_on →
  partners right left_on right_on l = partners right left_on right_on l'.
Proof. intros Heq. unfold partners, matches. by rewrite Heq. Qed.

Lemma elem_of_partners right left_on right_on l r :
  Some r ∈ partners right left_on right_on l ↔
  r ∈ rows right ∧ r <$> right_on = l <$> left_on.
Proof.
  unfold partners. destruct (matches _ _ _ _) as [|r' ms] eqn:Hms.
  - split.
    + by intros ?%list_elem_of_singleton.
    + intros Hr. assert (Hin : r ∈ matches right left_on right_on l)
        by (unfold matches; apply list_elem_of_filter; tauto).
      rewrite Hms in Hin. by apply elem_of_nil in Hin.
  - rewrite <- Hms. rewrite list_elem_of_fmap. unfold matches. split.
    + intros (x & [= <-] & Hx). apply list_elem_of_filter in Hx. tauto.
    + intros [? ?]. exists r. split; [done|]. apply list_elem_of_filter; tauto.
Qed.

Lemma None_in_partners right left_on right_on l :
  None ∈ partners right left_on right_on l ↔
  ∀ r, r ∈ rows right → r <$> right_on ≠ l <$> left_on.
Proof.
  unfold partners. destruct (matches _ _ _ _) as [|r' ms] eqn:Hms.
  - split; [|intros; by apply list_elem_of_singleton]. intros _ r Hr Heq.
    assert (Hin : r ∈ matches right left_on right_on l)
      by (unfold matches; apply list_elem_of_filter; tauto).
    rewrite Hms in Hin. by apply elem_of_nil in Hin.
  - split.
    + intros (x & ? & _)%list_elem_of_fmap. done.
    + intros Hno. assert (Hin : r' ∈ matches right left_on right_on l)
        by (rewrite Hms; constructor).
      apply list_elem_of_filter in Hin as [Heq Hin]. by destruct (Hno r' Hin).
Qed.

(** ** The start-up script: normalisation *)

Lemma assignM_Some name f df out :
  assignM name f df = Some out →
  columns out = with_column name (columns df) ∧
  Forall2 (λ r r', ∃ v, f r = Some v ∧ r' = set_cell name v r) (rows df) (rows out).
Proof.
  unfold assignM. destruct (mapM _ (rows df)) as [rs|] eqn:Hrs; simpl; [|done].
  intros [= <-]. split; [done|]. simpl.
  apply mapM_Some_1 in Hrs. eapply Forall2_impl; [exact Hrs|].
  intros r r' Hr. simpl in Hr. destruct (f r) as [v|]; simplify_eq/=. eauto.
Qed.

Ltac by_compute := apply (bool_decide_unpack _); vm_compute; exact I.

Ltac candidates H :=
  repeat (apply elem_of_cons in H as [->|H]); [..|by apply elem_of_nil in H].

Lemma set_cell_eq name v r : set_cell name v r name = v.
Proof. unfold set_cell. by rewrite String.eqb_refl. Qed.

Lemma set_cell_ne name v r c : c ≠ name → set_cell name v r c = r c.
Proof. intros Hne. unfold set_cell. by apply String.eqb_neq in Hne as ->. Qed.

(** Reading a cell through a chain of assignments to known labels. *)
Ltac cells := repeat first [rewrite set_cell_eq | rewrite set_cell_ne by by_compute].

Ltac text_column Hc :=
  apply find_col_loop_Some in Hc as [Hc _]; candidates Hc;
  unfold text_or, str_strip; cells.

Ltac cols_sub :=
  simpl; repeat (etrans; [|apply with_column_subseteq]); first [done | assumption].

Section Normalisation.
Context `{NumericText} (df_nofetal : DataFrame).

(** Lines 90-120 make one row of each row of the mortality table, in
    order. *)
Lemma df_base_rows base :
  df_base df_nofetal = Some base →
  columns df_nofetal ⊆ columns base ∧ canonical_base ⊆ columns base ∧
  (∀ c, c ∈ columns base → c ∈ columns df_nofetal ∨ c ∈ canonical_base) ∧
  Forall2 (normalised df_nofetal) (rows df_nofetal) (rows base).
Proof.
  unfold normalised, df_base, NOFETAL_cod_depto, NOFETAL_cod_mpio, NOFETAL_mes,
    NOFETAL_sexo, NOFETAL_grupoedad, NOFETAL_codmuerte.
  rewrite !truthy_name_found by by_compute.
  intros Hb. cbv zeta in Hb.
  set (d2 := assign "COD_MUNICIPIO_STR" _ _) in Hb.
  assert (Hd2 : columns df_nofetal ⊆ columns d2).
  { subst d2. simpl. etrans; [|apply with_column_subseteq]. apply with_column_subseteq. }
  rewrite name_in_found in Hb by (by_compute || done).
  destruct (assignM "MES_NUM" _ d2) as [d3|] eqn:Hd3; simpl in Hb; [|done].
  apply assignM_Some in Hd3 as [Hc3 Hr3].
  assert (Hd3 : columns df_nofetal ⊆ columns d3).
  { rewrite Hc3. etrans; [exact Hd2|apply with_column_subseteq]. }
  rewrite !name_in_found in Hb by (by_compute || cols_sub).
  injection Hb as <-. split_and!.
  - cols_sub.
  - intros c Hc. simpl. rewrite Hc3. subst d2. simpl.
    rewrite !elem_of_with_column. candidates Hc; auto 10.
  - intros c. simpl. rewrite Hc3. subst d2. simpl.
    rewrite !elem_of_with_column. unfold canonical_base. rewrite !elem_of_cons.
    tauto.
  - simpl. rewrite !Forall2_fmap_r. subst d2. simpl in Hr3.
    rewrite !Forall2_fmap_l in Hr3. eapply Forall2_impl; [exact Hr3|].
    clear. intros r0 r (v & Hv & ->). unfold compose, find_col in *.
    split_and!.
    + cells. by destruct (find_col_loop _ _).
    + cells. destruct (find_col_loop _ ("COD_MUNICIPIO" :: _)) as [c|] eqn:Hc; [|done].
      by text_column Hc.
    + cells. destruct (find_col_loop _ ["MES"]) as [c|] eqn:Hc; simpl in Hv |- *.
      * apply find_col_loop_Some in Hc as [Hc _]. candidates Hc.
        unfold month_num in *. revert Hv. cells.
        destruct (astype_int _) as [z|]; [|done]. intros [= <-]. by exists z.
      * injection Hv as <-. by exists 0.
    + cells. destruct (find_col_loop _ ["SEXO"]) as [c|] eqn:Hc; [|done].
      by text_column Hc.
    + cells. destruct (find_col_loop _ ("GRUPO_EDAD1" :: _)) as [c|] eqn:Hc; [|done].
      by text_column Hc.
    + cells. destruct (find_col_loop _ ("COD_MUERTE" :: _)) as [c|] eqn:Hc; [|done].
      by text_column Hc.
    + intros c Hc.
      rewrite !set_cell_ne; [done|intros ->; apply Hc; by_compute..].
Qed.
End Normalisation.

(** ** The start-up script: the two merges *)

Lemma isna_fillna s c : isna (fillna (Str s) c) = false.
Proof. unfold fillna. by destruct (isna c) eqn:Hc. Qed.

Lemma bind_singleton {A B} (f : A → B) (l : list A) : (x ← l; [f x]) = f <$> l.
Proof. induction l as [|a l IH]; [done|]. csimpl. by rewrite IH. Qed.

Lemma fmap_bind {A B C} (f : B → C) (k : A → list B) (l : list A) :
  f <$> (l ≫= k) = l ≫= (λ x, f <$> k x).
Proof. induction l as [|a l IH]; [done|]. csimpl. by rewrite fmap_app, IH. Qed.

Section Merges.
Context `{NumericText} (df_divipola df_codes : DataFrame).

(** Lines 125-139, row by row: a row of the table and what it is joined
    with give one record; the columns of the left table other than the two
    names are kept, and the two names are never NaN. *)
Lemma geo_join_rows base geo :
  geo_join df_divipola base = Some geo →
  ∃ g : Row → option Row → Row,
    rows geo = (r ← rows base; g r <$> geo_partners df_divipola r) ∧
    columns base ⊆ columns geo ∧
    "DEPARTAMENTO" ∈ columns geo ∧ "MUNICIPIO" ∈ columns geo ∧
    (∀ r m c, c ∈ columns base → c ≠ "DEPARTAMENTO" → c ≠ "MUNICIPIO" →
              g r m c = r c) ∧
    (∀ r m, isna (g r m "DEPARTAMENTO") = false ∧ isna (g r m "MUNICIPIO") = false) ∧
    (∀ r, "DEPARTAMENTO" ∉ columns base → "MUNICIPIO" ∉ columns base →
          "NOMBRE_DEPARTAMENTO" ∉ columns base → "NOMBRE_DPT" ∉ columns base →
          "NOMBRE_MUNICIPIO" ∉ columns base →
          g r None "DEPARTAMENTO" = Str "Departamento desconocido" ∧
          g r None "MUNICIPIO" = Str "Municipio desconocido") ∧
    (truthy_name (DIV_cod_depto df_divipola) = None ∨
     truthy_name (DIV_cod_mpio df_divipola) = None ∨
     truthy_name (DIV_depto df_divipola) = None ∨
     truthy_name (DIV_mpio df_divipola) = None →
     ∀ r m, g r m "DEPARTAMENTO" = Str "Departamento desconocido" ∧
            g r m "MUNICIPIO" = Str "Municipio desconocido").
Proof.
  unfold geo_join, geo_partners.
  destruct (truthy_name (DIV_cod_depto df_divipola)) as [cd|] eqn:Hcd;
  [destruct (truthy_name (DIV_cod_mpio df_divipola)) as [cm|] eqn:Hcm;
   [destruct (truthy_name (DIV_depto df_divipola)) as [d|] eqn:Hd;
    [destruct (truthy_name (DIV_mpio df_divipola)) as [m|] eqn:Hm|]|]|].
  2-5: intros [= <-];
    exists (λ r _, set_cell "MUNICIPIO" (Str "Municipio desconocido")
                     (set_cell "DEPARTAMENTO" (Str "Departamento desconocido") r));
    (split_and!;
     [ simpl; rewrite <- list_fmap_compose; symmetry; apply bind_singleton
     | cols_sub
     | simpl; rewrite !elem_of_with_column; auto
     | simpl; rewrite !elem_of_with_column; auto
     | intros r m c _ ? ?; by rewrite !set_cell_ne
     | intros r m; split; by cells
     | intros; split; by cells
     | intros _ r m'; split; by cells ]).
  destruct (divipola_keyed df_divipola cd cm d m) as [right|] eqn:Hright; simpl; [|done].
  destruct (merge_left base right _ _ _) as [merged|] eqn:Hmerge; simpl; [|done].
  case_decide as Hdm; [|done]. intros [= <-].
  apply merge_left_Some in Hmerge as (Hndl & Hndr & Hcols & Hrows). simpl in *.
  set (ov := filter (λ c, c ∈ columns right) (columns base)) in *.
  assert (Hleft : ∀ r mm c, c ∈ columns base →
            joined (rename ov "") (rename ov "_DIV") (columns base) (columns right) r mm c
            = r c).
  { intros r mm c Hc. apply joined_left; [done..|apply rename_empty]. }
  assert (Hnone : ∀ r c, c ∉ columns base →
            joined (rename ov "") (rename ov "_DIV") (columns base) (columns right) r None c
            = NaN).
  { intros r c Hc. unfold joined. rewrite source_None.
    - by destruct (source _ _ _).
    - intros c' Hc'. rewrite rename_empty. by intros ->. }
  exists (λ r mm,
    let j := joined (rename ov "") (rename ov "_DIV") (columns base) (columns right) r mm in
    let j1 := set_cell "DEPARTAMENTO" (fillna (Str "Departamento desconocido") (j d)) j in
    set_cell "MUNICIPIO" (fillna (Str "Municipio desconocido") (j1 m)) j1).
  apply truthy_name_Some in Hd as [Hd _], Hm as [Hm _].
  apply find_col_loop_Some in Hd as [Hd _], Hm as [Hm _].
  split_and!.
  - rewrite Hrows, <- list_fmap_compose, fmap_bind. apply list_bind_ext; [|done].
    intros r. by rewrite <- list_fmap_compose.
  - rewrite Hcols. intros c Hc. rewrite !elem_of_with_column, elem_of_app.
    right. right. left. apply list_elem_of_fmap. exists c. by rewrite rename_empty.
  - rewrite !elem_of_with_column. auto.
  - rewrite !elem_of_with_column. auto.
  - intros r mm c Hc ? ?. cbv zeta. rewrite !set_cell_ne by done. by apply Hleft.
  - intros r mm. cbv zeta. split; cells; apply isna_fillna.
  - intros r ? ? ? ? ?. cbv zeta. split.
    + cells. rewrite Hnone; [done|]. candidates Hd; done.
    + cells. candidates Hm; cells; (rewrite Hnone; [done|done]).
  - by intros [?|[?|[?|?]]].
Qed.

(** The labels the script adds and reads are none of the labels it looks
    for in the cause table, with or without a merge suffix. *)
Lemma cause_labels_apart code name :
  CODES_code_col df_codes = Some code → CODES_name_col df_codes = Some name →
  code ≠ name ∧ (code +:+ "_x") ≠ name ∧ (code +:+ "_y") ≠ name ∧
  (name +:+ "_x") ≠ name ∧ (name +:+ "_y") ≠ name ∧
  (code ∉ canonical_fields) ∧ (name ∉ canonical_fields).
Proof.
  intros [Hc _]%find_col_loop_Some [Hn _]%find_col_loop_Some.
  candidates Hc; candidates Hn; by_compute.
Qed.

(** The cause table as the merge sees it: its lines are those of the
    table, with the code and the name as stripped text. *)
Lemma codes_keyed_Some code name right :
  codes_keyed df_codes code name = Some right → code ≠ name →
  columns right = [code; name] ∧
  (∀ x, x ∈ rows right →
        ∃ x0, x0 ∈ rows df_codes ∧
              x code = Str (strip (astype_str (x0 code))) ∧
              x name = Str (strip (astype_str (x0 name)))) ∧
  (∀ x0, x0 ∈ rows df_codes →
         ∃ x, x ∈ rows right ∧
              x code = Str (strip (astype_str (x0 code))) ∧
              x name = Str (strip (astype_str (x0 name)))).
Proof.
  unfold codes_keyed, select. case_decide; [|done]. intros [= <-] Hne.
  split; [done|]. simpl. setoid_rewrite <- list_fmap_compose.
  unfold compose, str_strip. split.
  - intros x (x0 & -> & Hx0)%list_elem_of_fmap. exists x0. split; [done|].
    rewrite set_cell_eq, (set_cell_ne name) by done. rewrite set_cell_eq.
    by rewrite (set_cell_ne code) by done.
  - intros x0 Hx0. eexists. split; [by apply list_elem_of_fmap_2|]. simpl.
    rewrite set_cell_eq, (set_cell_ne name) by done. rewrite set_cell_eq.
    by rewrite (set_cell_ne code) by done.
Qed.

Lemma fillna_NaN v : fillna v NaN = v.
Proof. reflexivity. Qed.

Lemma fillna_Str v s : fillna v (Str s) = Str s.
Proof. reflexivity. Qed.

(** Lines 144-155, row by row: the canonical columns and the two names are
    kept; [CAUSA_NOMBRE] is the description of the cause row joined, the
    cause code when no row is joined, and the code or "No clasificada"
    when the merge is skipped. *)
Lemma cause_join_rows geo cause :
  cause_join df_codes geo = Some cause → "COD_MUERTE_STR" ∈ columns geo →
  ∃ g : Row → option Row → Row,
    rows cause = (r ← rows geo; g r <$> cause_partners df_codes r) ∧
    (∀ c, c ∈ columns geo → c ∈ canonical_fields → c ∈ columns cause) ∧
    "CAUSA_NOMBRE" ∈ columns cause ∧
    (∀ r m c, c ∈ columns geo → c ∈ canonical_fields → c ≠ "CAUSA_NOMBRE" →
              g r m c = r c) ∧
    (∀ code name,
       name_in (CODES_code_col df_codes) df_codes = Some code →
       name_in (CODES_name_col df_codes) df_codes = Some name →
       ∀ r,
         (∀ x, Some x ∈ cause_partners df_codes r →
               ∃ x0, x0 ∈ rows df_codes ∧
                     Str (strip (astype_str (x0 code))) = r "COD_MUERTE_STR" ∧
                     g r (Some x) "CAUSA_NOMBRE" = Str (strip (astype_str (x0 name)))) ∧
         (None ∈ cause_partners df_codes r ↔
          ∀ x0, x0 ∈ rows df_codes →
                Str (strip (astype_str (x0 code))) ≠ r "COD_MUERTE_STR") ∧
         g r None "CAUSA_NOMBRE" = r "COD_MUERTE_STR") ∧
    (name_in (CODES_code_col df_codes) df_codes = None ∨
     name_in (CODES_name_col df_codes) df_codes = None →
     ∀ r m, g r m "CAUSA_NOMBRE"
            = replace (Str "") (Str "No clasificada") (r "COD_MUERTE_STR")).
Proof.
  unfold cause_join, cause_partners.
  destruct (name_in (CODES_code_col df_codes) df_codes) as [code|] eqn:Hcode;
  [destruct (name_in (CODES_name_col df_codes) df_codes) as [name|] eqn:Hname|].
  2-3: intros [= <-] _;
    exists (λ r _, set_cell "CAUSA_NOMBRE"
                     (replace (Str "") (Str "No clasificada") (r "COD_MUERTE_STR")) r);
    (split_and!;
     [ simpl; symmetry; apply bind_singleton
     | intros c Hc _; simpl; apply elem_of_with_column; by right
     | simpl; rewrite !elem_of_with_column; auto
     | intros r m c _ _ ?; by rewrite set_cell_ne
     | done
     | intros _ r m; by cells ]).
  apply name_in_Some in Hcode as (Hcode & _ & _), Hname as (Hname & _ & _).
  destruct (cause_labels_apart code name Hcode Hname)
    as (Hcn & Hcx & Hcy & Hnx & Hny & Hcf & Hnf).
  destruct (codes_keyed df_codes code name) as [right|] eqn:Hright; simpl; [|done].
  apply codes_keyed_Some in Hright as (Hrc & Hrr & Hrl); [|done].
  destruct (merge_left geo right _ _ _) as [merged|] eqn:Hmerge; simpl; [|done].
  case_decide as Hin; [|done]. intros [= <-] Hcod.
  apply merge_left_Some in Hmerge as (Hndl & Hndr & Hcols & Hrows). simpl in *.
  rewrite Hrc in *.
  set (ov := filter (λ c, c ∈ [code; name]) (columns geo)) in *.
  set (J := joined (rename ov "_x") (rename ov "_y") (columns geo) [code; name]) in *.
  assert (Hov : ∀ c, c ∈ ov → (c = code ∨ c = name) ∧ c ∈ columns geo).
  { intros c [Hc ?]%list_elem_of_filter. split; [|done].
    apply elem_of_cons in Hc as [->|Hc]; [by left|].
    apply list_elem_of_singleton in Hc. by right. }
  assert (Hkeep : ∀ c, c ∈ canonical_fields → rename ov "_x" c = c).
  { intros c Hc. apply rename_outside. intros [[->| ->] _]%Hov; done. }
  assert (HJl : ∀ r m c, c ∈ columns geo → c ∈ canonical_fields → J r m c = r c).
  { intros r m c ? ?. apply joined_left; auto. }
  assert (Hnl : name ∉ columns geo).
  { intros Hn. assert (Hnov : name ∈ ov).
    { apply list_elem_of_filter. split; [|done]. apply elem_of_cons. right. constructor. }
    destruct Hin as [Hin _]. rewrite Hcols, elem_of_app in Hin.
    destruct Hin as [(c & Hc & Hcin)%list_elem_of_fmap|Hin].
    - unfold rename in Hc. case_decide as Hcov.
      + destruct (Hov c Hcov) as [[-> | ->] _]; by subst.
      + by subst.
    - unfold rename in Hin. rewrite !fmap_cons, fmap_nil in Hin.
      rewrite (decide_True (P:=name ∈ ov)) in Hin by done.
      apply elem_of_cons in Hin as [Hin|Hin%list_elem_of_singleton]; [|done].
      case_decide; by subst. }
  assert (Hny' : rename ov "_y" name = name).
  { apply rename_outside. by intros [_ ?]%Hov. }
  assert (HJr : ∀ r m, J r m name = from_option (λ x, x name) NaN m).
  { intros r m. rewrite <- Hny' at 1. apply joined_right; [|done|].
    - intros c Hc. rewrite Hny'. unfold rename. case_decide as Hcov.
      + destruct (Hov c Hcov) as [[-> | ->] _]; done.
      + by intros ->.
    - apply elem_of_cons. right. constructor. }
  exists (λ r m, let j := J r m in
                 set_cell "CAUSA_NOMBRE" (fillna (j "COD_MUERTE_STR") (j name)) j).
  assert (Hcodf : "COD_MUERTE_STR" ∈ canonical_fields) by by_compute.
  split_and!.
  - rewrite Hrows, fmap_bind. apply list_bind_ext; [|done].
    intros r. by rewrite <- list_fmap_compose.
  - intros c Hc Hcf'. apply elem_of_with_column. right. rewrite Hcols, elem_of_app.
    left. apply list_elem_of_fmap. exists c. by rewrite Hkeep.
  - apply elem_of_with_column. by left.
  - intros r m c Hc Hcf' Hne. cbv zeta. rewrite set_cell_ne by done. by apply HJl.
  - intros code0 name0 [= <-] [= <-] r. split_and!.
    + intros x [Hx Hkey]%elem_of_partners. destruct (Hrr x Hx) as (x0 & Hx0 & Hxc & Hxn).
      exists x0. split; [done|]. injection Hkey as Hkey. split; [congruence|].
      cbv zeta. rewrite set_cell_eq, HJr. simpl. by rewrite Hxn.
    + rewrite None_in_partners. split.
      * intros Hno x0 Hx0 Heq. destruct (Hrl x0 Hx0) as (x & Hx & Hxc & Hxn).
        apply (Hno x Hx). simpl. congruence.
      * intros Hno x Hx Hkey. destruct (Hrr x Hx) as (x0 & Hx0 & Hxc & Hxn).
        apply (Hno x0 Hx0). injection Hkey as Hkey. congruence.
    + cbv zeta. rewrite set_cell_eq, HJr. simpl. rewrite fillna_NaN. by apply HJl.
  - by intros [?|?].
Qed.
End Merges.

(** ** The start-up script: from the mortality rows to the records *)

Lemma Forall2_elem_of_r {A B} (P : A → B → Prop) l k y :
  Forall2 P l k → y ∈ k → ∃ x, x ∈ l ∧ P x y.
Proof.
  induction 1 as [|x y' l k Hxy _ IH]; [by intros ?%elem_of_nil|].
  intros [->|Hy]%elem_of_cons.
  - exists x. split; [constructor|done].
  - destruct (IH Hy) as (x' & ? & ?). exists x'. split; [by constructor|done].
Qed.

(** A list whose elements all have the image [y] maps to copies of [y]. *)
Lemma fmap_bind_replicate {A B C} (f : B → C) (k : A → list B) (l : list A) n y :
  (∀ a b, a ∈ l → b ∈ k a → f b = y) → (∀ a, a ∈ l → length (k a) = n) →
  f <$> (l ≫= k) = replicate (length l * n) y.
Proof.
  induction l as [|a l IH]; intros Hf Hn; [done|].
  csimpl. rewrite fmap_app, replicate_add, IH.
  - f_equal. rewrite (const_fmap f (k a) y).
    + f_equal. apply Hn. constructor.
    + intros i b Hb. apply (Hf a); [constructor|by eapply list_elem_of_lookup_2].
  - intros a' b Ha' Hb. apply (Hf a'); [by constructor|done].
  - intros a' Ha'. apply Hn. by constructor.
Qed.

Section Records.
Context `{NumericText} (df_nofetal df_divipola df_codes : DataFrame).

Lemma df_stages out :
  df df_nofetal df_divipola df_codes = Some out →
  ∃ base geo cause,
    df_base df_nofetal = Some base ∧ geo_join df_divipola base = Some geo ∧
    cause_join df_codes geo = Some cause ∧
    out = assign "GRUPO_EDAD_LABEL" age_label cause.
Proof.
  unfold df. intros Hout.
  destruct (df_base df_nofetal) as [base|] eqn:Hb; simpl in Hout; [|done].
  destruct (geo_join df_divipola base) as [geo|] eqn:Hg; simpl in Hout; [|done].
  destruct (cause_join df_codes geo) as [cause|] eqn:Hc; simpl in Hout; [|done].
  injection Hout as <-. by exists base, geo, cause.
Qed.

Lemma cause_partners_ext r r' :
  r "COD_MUERTE_STR" = r' "COD_MUERTE_STR" →
  cause_partners df_codes r = cause_partners df_codes r'.
Proof.
  intros Heq. unfold cause_partners.
  destruct (name_in (CODES_code_col _) _) as [code|]; [|done].
  destruct (name_in (CODES_name_col _) _) as [name|]; [|done].
  destruct (codes_keyed _ _ _) as [right|]; [|done]. simpl.
  apply partners_ext. simpl. by rewrite Heq.
Qed.


(** Where a record comes from: a row [r0] of the mortality table, the row
    [r] that normalisation makes of it, and what the two merges join it
    with. *)
Lemma df_row out r' :
  df df_nofetal df_divipola df_codes = Some out → r' ∈ rows out →
  ∃ r0 r m1 m2,
    r0 ∈ rows df_nofetal ∧ normalised df_nofetal r0 r ∧
    m1 ∈ geo_partners df_divipola r ∧ m2 ∈ cause_partners df_codes r ∧
    (∀ c, c ∈ canonical_base → r' c = r c) ∧
    isna (r' "DEPARTAMENTO") = false ∧ isna (r' "MUNICIPIO") = false ∧
    (truthy_name (DIV_cod_depto df_divipola) = None ∨
     truthy_name (DIV_cod_mpio df_divipola) = None ∨
     truthy_name (DIV_depto df_divipola) = None ∨
     truthy_name (DIV_mpio df_divipola) = None ∨
     m1 = None ∧
     Forall (λ c, c ∉ columns df_nofetal)
       ["DEPARTAMENTO"; "MUNICIPIO"; "NOMBRE_DEPARTAMENTO"; "NOMBRE_DPT";
        "NOMBRE_MUNICIPIO"] →
     r' "DEPARTAMENTO" = Str "Departamento desconocido" ∧
     r' "MUNICIPIO" = Str "Municipio desconocido") ∧
    (∀ code name,
       name_in (CODES_code_col df_codes) df_codes = Some code →
       name_in (CODES_name_col df_codes) df_codes = Some name →
       match m2 with
       | Some _ =>
           ∃ x0, x0 ∈ rows df_codes ∧
                 Str (strip (astype_str (x0 code))) = r "COD_MUERTE_STR" ∧
                 r' "CAUSA_NOMBRE" = Str (strip (astype_str (x0 name)))
       | None =>
           (∀ x0, x0 ∈ rows df_codes →
                  Str (strip (astype_str (x0 code))) ≠ r "COD_MUERTE_STR") ∧
           r' "CAUSA_NOMBRE" = r "COD_MUERTE_STR"
       end) ∧
    (name_in (CODES_code_col df_codes) df_codes = None ∨
     name_in (CODES_name_col df_codes) df_codes = None →
     r' "CAUSA_NOMBRE"
     = replace (Str "") (Str "No clasificada") (r "COD_MUERTE_STR")) ∧
    r' "GRUPO_EDAD_LABEL" = Str (map_age (astype_str (r "GRUPO_EDAD1"))).
Proof.
  intros (base & geo & cause & Hbase & Hgeo & Hcause & ->)%df_stages Hr'.
  apply df_base_rows in Hbase as (Hb1 & Hb2 & Hb3 & Hb4).
  apply geo_join_rows in Hgeo
    as (g1 & Hg1 & Hgc & HgD & HgM & Hgkeep & Hgna & Hgnone & Hgskip).
  assert (HcodB : "COD_MUERTE_STR" ∈ columns base) by (apply Hb2; by_compute).
  apply cause_join_rows in Hcause
    as (g2 & Hg2 & Hcc & HcC & Hckeep & Hcjoin & Hcskip); [|by apply Hgc].
  simpl in Hr'. apply list_elem_of_fmap in Hr' as (rc & -> & Hrc).
  rewrite Hg2 in Hrc. apply list_elem_of_bind in Hrc as (r1 & Hrc & Hr1).
  apply list_elem_of_fmap in Hrc as (m2 & -> & Hm2).
  rewrite Hg1 in Hr1. apply list_elem_of_bind in Hr1 as (r & Hr1 & Hr).
  apply list_elem_of_fmap in Hr1 as (m1 & -> & Hm1).
  destruct (Forall2_elem_of_r _ _ _ _ Hb4 Hr) as (r0 & Hr0 & Hnorm).
  assert (Hbasecell : ∀ c, c ∈ canonical_base → g1 r m1 c = r c).
  { intros c Hc. apply Hgkeep; [by apply Hb2|..]; candidates Hc; done. }
  assert (Hcod : g1 r m1 "COD_MUERTE_STR" = r "COD_MUERTE_STR")
    by (apply Hbasecell; by_compute).
  rewrite (cause_partners_ext _ r) in Hm2 by done.
  exists r0, r, m1, m2. split_and!; try done.
  - intros c Hc. rewrite set_cell_ne by (candidates Hc; done).
    rewrite Hckeep.
    + by apply Hbasecell.
    + apply Hgc. by apply Hb2.
    + apply elem_of_app. by left.
    + candidates Hc; done.
  - rewrite set_cell_ne, Hckeep by (done || by_compute). apply Hgna.
  - rewrite set_cell_ne, Hckeep by (done || by_compute). apply Hgna.
  - intros Hwhy. rewrite !(set_cell_ne "GRUPO_EDAD_LABEL") by done.
    rewrite !Hckeep by (done || by_compute).
    destruct Hwhy as [?|[?|[?|[?|[-> Hcols]]]]]; [apply Hgskip; auto..|].
    rewrite !Forall_cons in Hcols. destruct Hcols as (? & ? & ? & ? & ? & _).
    apply Hgnone; intros [Hc|Hc]%Hb3; try done; revert Hc; by_compute.
  - intros code name Hcode Hname. rewrite set_cell_ne by done.
    destruct (Hcjoin code name Hcode Hname (g1 r m1)) as (Hsome & Hnone & Hval).
    rewrite (cause_partners_ext _ r) in Hsome, Hnone by done. rewrite <- Hcod.
    destruct m2 as [x|]; [by apply Hsome|]. split; [by apply Hnone|done].
  - intros Hskip. rewrite set_cell_ne by done. rewrite <- Hcod. by apply Hcskip.
  - rewrite set_cell_eq. unfold age_label. do 3 f_equal.
    rewrite Hckeep by (done || by_compute || (apply Hgc, Hb2; by_compute)).
    apply Hbasecell. by_compute.
Qed.

Lemma df_columns out :
  df df_nofetal df_divipola df_codes = Some out → canonical_fields ⊆ columns out.
Proof.
  intros (base & geo & cause & Hbase & Hgeo & Hcause & ->)%df_stages.
  apply df_base_rows in Hbase as (_ & Hb2 & _).
  apply geo_join_rows in Hgeo as (g1 & _ & Hgc & HgD & HgM & _).
  apply cause_join_rows in Hcause as (g2 & _ & Hcc & HcC & _);
    [|apply Hgc, Hb2; by_compute].
  intros c Hc. simpl. apply elem_of_with_column.
  apply elem_of_app in Hc as [Hc|Hc].
  - right. apply Hcc; [by apply Hgc, Hb2|]. apply elem_of_app. by left.
  - candidates Hc; [right; apply Hcc; [done|by_compute]..|by right|by left].
Qed.

Lemma text_or_Str o default r0 : ∃ s, text_or o default r0 = Str s.
Proof. destruct o; simpl; eauto. Qed.



(** The cause name of a record is never NaN. *)
Lemma causa_nombre_notna out r' :
  df df_nofetal df_divipola df_codes = Some out → r' ∈ rows out →
  isna (r' "CAUSA_NOMBRE") = false.
Proof.
  intros Hout Hr'.
  destruct (df_row out r' Hout Hr')
    as (r0 & r & m1 & m2 & _ & Hnorm & _ & _ & _ & _ & _ & _ & Hjoin & Hskip & _).
  destruct Hnorm as (_ & _ & _ & _ & _ & Hcod & _).
  destruct (text_or_Str (NOFETAL_codmuerte df_nofetal) "" r0) as [s Hs].
  rewrite Hs in Hcod.
  destruct (name_in (CODES_code_col df_codes) df_codes) as [code|] eqn:Hcode;
    [destruct (name_in (CODES_name_col df_codes) df_codes) as [name|] eqn:Hname|].
  - specialize (Hjoin code name eq_refl eq_refl). destruct m2.
    + by destruct Hjoin as (x0 & _ & _ & ->).
    + destruct Hjoin as [_ ->]. by rewrite Hcod.
  - rewrite Hskip by auto. rewrite Hcod. unfold replace. by case_decide.
  - rewrite Hskip by auto. rewrite Hcod. unfold replace. by case_decide.
Qed.






Lemma bind_bind {A B C} (f : A → list B) (g : B → list C) (l : list A) :
  (l ≫= f) ≫= g = l ≫= (λ x, f x ≫= g).
Proof. induction l as [|a l IH]; [done|]. csimpl. by rewrite bind_app, IH. Qed.

Lemma bind_replicate_one {A B} (f : A → B) (l : list A) :
  (x ← l; replicate 1 (f x)) = f <$> l.
Proof. apply bind_singleton. Qed.

(** C1, as the code has it: the merges drop no row and keep the order of
    the mortality table. Normalisation makes one row of each input row;
    such a row gives one record for each geography row and each cause row
    it is joined with, one when it is joined with none, and these records
    carry its six canonical cells. When every row is joined with at most
    one row of each table, there is exactly one record per input row. *)
Theorem records_per_row out :
  df df_nofetal df_divipola df_codes = Some out →
  ∃ base,
    df_base df_nofetal = Some base ∧
    Forall2 (normalised df_nofetal) (rows df_nofetal) (rows base) ∧
    cells canonical_base out
    = (r ← rows base;
       replicate (geo_fanout df_divipola r * cause_fanout df_codes r)
                 (r <$> canonical_base)) ∧
    (∀ r, (1 ≤ geo_fanout df_divipola r)%nat ∧ (1 ≤ cause_fanout df_codes r)%nat) ∧
    ((∀ r, r ∈ rows base →
           geo_fanout df_divipola r = 1%nat ∧ cause_fanout df_codes r = 1%nat) →
     cells canonical_base out = cells canonical_base base ∧
     length (rows out) = length (rows df_nofetal)).
Proof.
  intros (base & geo & cause & Hbase & Hgeo & Hcause & ->)%df_stages.
  exists base. split; [done|].
  apply df_base_rows in Hbase as (Hb1 & Hb2 & Hb3 & Hb4).
  apply geo_join_rows in Hgeo as (g1 & Hg1 & Hgc & HgD & HgM & Hgkeep & _).
  apply cause_join_rows in Hcause as (g2 & Hg2 & Hcc & HcC & Hckeep & _);
    [|apply Hgc, Hb2; by_compute].
  assert (Hfan : ∀ r, (1 ≤ geo_fanout df_divipola r)%nat ∧
                      (1 ≤ cause_fanout df_codes r)%nat).
  { intros r. unfold geo_fanout, cause_fanout, geo_partners, cause_partners.
    split.
    - repeat (destruct (truthy_name _); [|simpl; lia]).
      destruct (divipola_keyed _ _ _ _ _); simpl; [|lia].
      rewrite length_partners. lia.
    - repeat (destruct (name_in _ _); [|simpl; lia]).
      destruct (codes_keyed _ _ _); simpl; [|lia].
      rewrite length_partners. lia. }
  assert (Hcells : cells canonical_base
                     (assign "GRUPO_EDAD_LABEL" age_label cause)
    = (r ← rows base;
       replicate (geo_fanout df_divipola r * cause_fanout df_codes r)
                 (r <$> canonical_base))).
  { unfold cells. cbn [rows assign]. rewrite <- list_fmap_compose, Hg2, Hg1.
    rewrite bind_bind, fmap_bind. apply list_bind_ext; [|done]. intros r.
    rewrite list_fmap_bind. unfold geo_fanout.
    apply fmap_bind_replicate.
    - intros m1 rc _ (m2 & -> & _)%list_elem_of_fmap. unfold compose.
      apply list_fmap_ext. intros i c Hc%list_elem_of_lookup_2.
      assert (Hcb : c ∈ columns base) by (by apply Hb2).
      rewrite set_cell_ne by (candidates Hc; done).
      rewrite Hckeep; [|by apply Hgc|apply elem_of_app; by left|candidates Hc; done].
      apply Hgkeep; [done|candidates Hc; done..].
    - intros m1 _. unfold compose. rewrite length_fmap. unfold cause_fanout.
      f_equal. apply cause_partners_ext.
      apply Hgkeep; [apply Hb2; by_compute|done..]. }
  split_and!; [done..|].
  intros Hone. rewrite Hcells. split.
  - unfold cells. rewrite <- bind_replicate_one. apply Forall_bind_ext.
    apply Forall_forall. intros r Hr. destruct (Hone r Hr) as [-> ->]. done.
  - apply (f_equal length) in Hcells. unfold cells in Hcells.
    rewrite length_fmap in Hcells. etrans; [exact Hcells|].
    rewrite (Forall2_length _ _ _ Hb4). clear -Hone.
    induction (rows base) as [|r l IH]; [done|].
    rewrite bind_cons, length_app, length_replicate.
    rewrite IH by (intros; apply Hone; by constructor).
    destruct (Hone r) as [-> ->]; [constructor|done].
Qed.
End Records.

(** ** Orders *)

#[global] Instance by_size_desc_total : Total by_size_desc.
Proof. intros a b. unfold by_size_desc. lia. Qed.

#[global] Instance by_size_desc_trans : Transitive by_size_desc.
Proof. intros a b c. unfold by_size_desc. lia. Qed.

#[global] Instance by_size_asc_total : Total by_size_asc.
Proof. intros a b. unfold by_size_asc. lia. Qed.

#[global] Instance by_size_asc_trans : Transitive by_size_asc.
Proof. intros a b c. unfold by_size_asc. lia. Qed.

Lemma key_compare_antisym a b : key_compare b a = CompOpp (key_compare a b).
Proof.
  destruct a as [m1 e1|n1|s], b as [m2 e2|n2|t]; simpl; try done.
  - rewrite (Z.min_comm e2 e1). apply Z.compare_antisym.
  - by destruct n2.
  - by destruct n1.
  - by destruct n1, n2.
  - apply String.compare_antisym.
Qed.

Lemma keys_compare_antisym a b : keys_compare b a = CompOpp (keys_compare a b).
Proof.
  revert b. induction a as [|x a IH]; intros [|y b]; simpl; try done.
  rewrite (key_compare_antisym x y). destruct (key_compare x y); simpl; auto.
Qed.

#[global] Instance keys_le_total : Total keys_le.
Proof.
  intros a b. unfold keys_le. rewrite (keys_compare_antisym a b).
  destruct (keys_compare a b); simpl; auto.
Qed.

(** ** Grouped counts *)

Lemma occurrences_omap {A K} `{EqDecision K} (f : A → option K) (l : list A) (k : K) :
  occurrences (omap f l) k = length (filter (λ x, f x = Some k) l).
Proof.
  induction l as [|a l IH]; [done|].
  rewrite filter_cons. cbn [omap list_omap]. destruct (f a) as [k'|] eqn:Hf.
  - rewrite occurrences_cons, IH. destruct (decide (k' = k)) as [->|Hne].
    + by rewrite decide_True.
    + rewrite decide_False; [done|]. by intros [= ?].
  - rewrite IH. by rewrite decide_False.
Qed.

Lemma occurrences_pos {K} `{EqDecision K} (l : list K) (k : K) :
  k ∈ l ↔ (0 < occurrences l k)%nat.
Proof.
  unfold occurrences. split.
  - intros Hk. assert (Hin : k ∈ filter (λ k', k' = k) l) by (by apply list_elem_of_filter).
    destruct (filter _ l); [by apply elem_of_nil in Hin|simpl; lia].
  - intros Hpos. destruct (filter (λ k', k' = k) l) as [|x f] eqn:Hf; [simpl in Hpos; lia|].
    assert (Hin : x ∈ filter (λ k', k' = k) l) by (rewrite Hf; constructor).
    apply list_elem_of_filter in Hin as [-> ?]. done.
Qed.

Lemma groupby_size_keys by_ rs :
  (groupby_size by_ rs).*1 = merge_sort keys_le (remove_dups (omap (row_key by_) rs)).
Proof.
  unfold groupby_size. rewrite <- list_fmap_compose.
  etrans; [|apply list_fmap_id]. by apply list_fmap_ext.
Qed.

Lemma elem_of_groupby_size by_ rs k n :
  (k, n) ∈ groupby_size by_ rs ↔
  n = length (filter (λ r, row_key by_ r = Some k) rs) ∧ (0 < n)%nat.
Proof.
  unfold groupby_size. rewrite list_elem_of_fmap. rewrite <- occurrences_omap. split.
  - intros (k' & [= -> ->] & Hk). split; [done|]. apply occurrences_pos.
    rewrite merge_sort_Permutation in Hk. by apply elem_of_remove_dups.
  - intros [-> Hk]. exists k. split; [done|]. rewrite merge_sort_Permutation.
    apply elem_of_remove_dups. by apply occurrences_pos.
Qed.

Lemma groupby_size_NoDup by_ rs : NoDup ((groupby_size by_ rs).*1).
Proof.
  rewrite groupby_size_keys, merge_sort_Permutation. apply NoDup_remove_dups.
Qed.

Lemma groupby_size_Sorted by_ rs : Sorted keys_le ((groupby_size by_ rs).*1).
Proof. rewrite groupby_size_keys. apply (Sorted_merge_sort _). Qed.

(** X11: every chart that groups the selected records (by department, by
    month, by department and sex, by age group) lists a group exactly when
    it has a record, with the number of its records; it lists no group
    twice, and the groups are in increasing order of their keys. *)
Theorem update_all_groups df v :
  let V := update_all df v in
  let rs := rows (dff df v) in
  Forall (λ chart : list string * Counts,
            (∀ k n, (k, n) ∈ chart.2 ↔
                    n = length (filter (λ r, row_key chart.1 r = Some k) rs) ∧
                    (0 < n)%nat) ∧
            NoDup (chart.2.*1) ∧ Sorted keys_le (chart.2.*1))
    [ (["DEPARTAMENTO"], map_fig V); (["MES_NUM"], fig_mes V);
      (["DEPARTAMENTO"; "SEXO"], fig_stack V); (["GRUPO_EDAD_LABEL"], fig_hist V) ].
Proof.
  intros V rs. repeat apply Forall_cons_2; [..|constructor];
    (split_and!;
     [ intros k n; apply elem_of_groupby_size
     | apply groupby_size_NoDup
     | apply groupby_size_Sorted ]).
Qed.

(** ** The ranked views *)

Lemma sort_values_Permutation asc t : sort_values asc t ≡ₚ t.
Proof. unfold sort_values. destruct asc; apply merge_sort_Permutation. Qed.

Lemma sort_values_StronglySorted (asc : bool) t :
  StronglySorted (if asc then by_size_asc else by_size_desc) (sort_values asc t).
Proof. unfold sort_values. destruct asc; apply StronglySorted_merge_sort; apply _. Qed.

(** The first [n] lines of a grouped count sorted by size. *)
Lemma head_sort_values (asc : bool) n t :
  let R := if asc then by_size_asc else by_size_desc in
  length (head n (sort_values asc t)) = (n `min` length t)%nat ∧
  head n (sort_values asc t) ⊆+ t ∧
  StronglySorted R (head n (sort_values asc t)) ∧
  (∀ x y, x ∈ head n (sort_values asc t) → y ∈ t → y ∉ head n (sort_values asc t) →
          R x y).
Proof.
  intros R. unfold head.
  pose proof (sort_values_Permutation asc t) as Hp.
  pose proof (sort_values_StronglySorted asc t) as Hs. fold R in Hs.
  set (s := sort_values asc t) in *. split_and!.
  - rewrite length_take. by rewrite Hp.
  - rewrite <- Hp. apply sublist_submseteq, sublist_take.
  - rewrite <- (take_drop n s) in Hs. by apply StronglySorted_app_1_l in Hs.
  - intros x y Hx Hy Hny. rewrite <- (take_drop n s) in Hs.
    eapply StronglySorted_app_1_elem_of; [exact Hs|exact Hx|].
    rewrite <- Hp, <- (take_drop n s), elem_of_app in Hy. tauto.
Qed.

(** X13: the three ranked views, the five municipalities with most homicide
    records, the ten with fewest records, the ten most frequent causes: each
    shows groups of the grouped count with their sizes, sorted by size, as
    many as asked for if there are that many, and leaves out no group that
    would rank before one it shows. *)
Theorem update_all_ranked df v :
  let V := update_all df v in
  let rs := rows (dff df v) in
  let hom := filter (λ r, str_contains homicide_pattern (r "COD_MUERTE_STR")) rs in
  Forall (λ '(asc, n, by_, src, view),
            let t := groupby_size by_ src in
            let R := if asc : bool then by_size_asc else by_size_desc in
            length view = (n `min` length t)%nat ∧ view ⊆+ t ∧ StronglySorted R view ∧
            (∀ x y, x ∈ view → y ∈ t → y ∉ view → R x y) ∧
            (∀ k m, (k, m) ∈ view →
                    m = length (filter (λ r, row_key by_ r = Some k) src) ∧
                    (0 < m)%nat))
    [ (false, 5%nat, ["MUNICIPIO"], hom, fig_homicidios V);
      (true, 10%nat, ["MUNICIPIO"], rs, fig_low10 V);
      (false, 10%nat, ["COD_MUERTE_STR"; "CAUSA_NOMBRE"], rs, table_top_causas V) ].
Proof.
  intros V rs hom.
  assert (Hview : ∀ (asc : bool) n by_ src,
    let t := groupby_size by_ src in
    let view := head n (sort_values asc t) in
    let R := if asc then by_size_asc else by_size_desc in
    length view = (n `min` length t)%nat ∧ view ⊆+ t ∧ StronglySorted R view ∧
    (∀ x y, x ∈ view → y ∈ t → y ∉ view → R x y) ∧
    (∀ k m, (k, m) ∈ view →
            m = length (filter (λ r, row_key by_ r = Some k) src) ∧ (0 < m)%nat)).
  { intros asc n by_ src t view R.
    destruct (head_sort_values asc n t) as (Hlen & Hsub & Hsort & Hrank).
    split_and!; [done..|]. intros k m Hk. apply elem_of_groupby_size.
    eapply elem_of_submseteq; [exact Hk|exact Hsub]. }
  repeat apply Forall_cons_2; [..|constructor]; apply Hview.
Qed.

(** ** One department *)

Lemma dff_rows_subseteq df v : rows (dff df v) ⊆ rows df.
Proof.
  unfold dff. destruct (_ && _); [|done]. simpl.
  intros r Hr. apply list_elem_of_filter in Hr. tauto.
Qed.

Lemma key_None c : key c = None ↔ isna c = true.
Proof. destruct c as [|[]|]; simpl; split; done. Qed.

Lemma remove_dups_replicate {A} `{EqDecision A} n (x : A) :
  remove_dups (replicate (S n) x) = [x].
Proof.
  induction n as [|n IH]; [done|].
  change (replicate (S (S n)) x) with (x :: replicate (S n) x).
  cbn [remove_dups]. case_decide as Hin; [done|]. destruct Hin. simpl. constructor.
Qed.

Lemma occurrences_replicate {A} `{EqDecision A} n (x : A) :
  occurrences (replicate n x) x = n.
Proof.
  induction n as [|n IH]; [done|]. simpl.
  rewrite occurrences_cons, decide_True by done. by rewrite IH.
Qed.

(** The rows a department filter keeps all have the department's key. *)
Lemma omap_row_key_filter c d k rs :
  key d = Some k →
  omap (row_key [c]) (filter (λ r, val_eq (r c) (PVal d)) rs)
  = replicate (length (filter (λ r, key (r c) = Some k) rs)) [k].
Proof.
  intros Hd. induction rs as [|r rs IH]; [done|].
  rewrite !filter_cons. cbn [val_eq]. destruct (py_eq (r c) d) eqn:Heq.
  - apply py_eq_key in Heq as (k' & Hr & Hd'). simplify_eq.
    rewrite decide_True by done. rewrite decide_True by done.
    cbn [omap list_omap]. rewrite row_key_single, Hr. simpl. f_equal. exact IH.
  - rewrite decide_False by (by intros ?). rewrite decide_False; [exact IH|].
    intros Hr. assert (py_eq (r c) d = true) by (apply py_eq_key; eauto). congruence.
Qed.

Lemma map_fig_department df d k :
  truthy (PVal d) = true → py_eq (Str "_ALL_") d = false → key d = Some k →
  let n := length (filter (λ r, key (r "DEPARTAMENTO") = Some k) (rows df)) in
  map_fig (update_all df (PVal d)) = (if decide (n = 0%nat) then [] else [([k], n)]).
Proof.
  intros Ht Hall Hk n. cbn [update_all map_fig]. rewrite dff_department by done.
  unfold groupby_size. rewrite (omap_row_key_filter _ _ k) by done. fold n.
  destruct n as [|n']; [done|]. rewrite decide_False by done.
  rewrite remove_dups_replicate. change (merge_sort keys_le [[k]]) with [[k]].
  cbn [fmap list_fmap]. by rewrite occurrences_replicate.
Qed.

(** X12: with a department selected, the chart by department has one bar,
    the department's, with the number of its records; it is the bar this
    department has in the chart of all departments. *)
Theorem update_all_one_department df d k :
  truthy (PVal d) = true → py_eq (Str "_ALL_") d = false → key d = Some k →
  let n := length (filter (λ r, key (r "DEPARTAMENTO") = Some k) (rows df)) in
  map_fig (update_all df (PVal d)) = (if decide (n = 0%nat) then [] else [([k], n)]) ∧
  ((0 < n)%nat → ([k], n) ∈ map_fig (update_all df ALL)).
Proof.
  intros Ht Hall Hk n. split; [by apply map_fig_department|].
  intros Hn. cbn [update_all map_fig]. rewrite dff_ALL.
  apply elem_of_groupby_size. split; [|done]. subst n. f_equal.
  apply list_filter_iff. intros r. rewrite row_key_single.
  destruct (key (r "DEPARTAMENTO")); simpl; split; congruence.
Qed.

(** ** The charts of the table of the script *)

Lemma length_omap_Some {A B} (f : A → option B) (l : list A) :
  (∀ x, x ∈ l → is_Some (f x)) → length (omap f l) = length l.
Proof.
  induction l as [|a l IH]; intros Hf; [done|].
  cbn [omap list_omap]. destruct (Hf a) as [b ->]; [constructor|].
  simpl. rewrite IH; [done|]. intros x Hx. apply Hf. by constructor.
Qed.

Lemma row_key_is_Some by_ r :
  (∀ c, c ∈ by_ → isna (r c) = false) → is_Some (row_key by_ r).
Proof.
  intros Hna. unfold row_key. apply mapM_is_Some, Forall_forall.
  intros c Hc. simpl. destruct (key (r c)) eqn:Hk; [done|].
  apply key_None in Hk. rewrite Hna in Hk; done.
Qed.

Lemma total_take_le n (t : Counts) : (total (take n t) ≤ total t)%nat.
Proof.
  unfold total. rewrite <- (take_drop n t) at 2.
  rewrite fmap_app, sum_list_with_app. lia.
Qed.

Lemma total_head_sort_values asc n t : (total (head n (sort_values asc t)) ≤ total t)%nat.
Proof.
  unfold head. etrans; [apply total_take_le|]. apply Nat.eq_le_incl.
  unfold total. apply sum_list_Permutation, fmap_Permutation, sort_values_Permutation.
Qed.

Lemma length_omap_le {A B} (f : A → option B) (l : list A) :
  (length (omap f l) ≤ length l)%nat.
Proof.
  induction l as [|a l IH]; [done|].
  cbn [omap list_omap]. destruct (f a); simpl; lia.
Qed.

Lemma total_groupby_size_le by_ rs : (total (groupby_size by_ rs) ≤ length rs)%nat.
Proof. rewrite total_groupby_size. apply length_omap_le. Qed.

Lemma map_age_label code : map_age code ∈ "Sin info" :: age_labels.
Proof.
  unfold map_age, age_get. destruct (age_map !! _) as [v|] eqn:Hv; simpl.
  - apply elem_of_cons. right. apply age_labels_values. eauto.
  - constructor.
Qed.

Section Charts.
Context `{NumericText} (df_nofetal df_divipola df_codes : DataFrame).

(** No canonical field of a record is NaN. *)
Lemma record_notna out r c :
  df df_nofetal df_divipola df_codes = Some out → r ∈ rows out →
  c ∈ canonical_fields → isna (r c) = false.
Proof.
  intros Hout Hr Hc.
  destruct (df_row _ _ _ out r Hout Hr)
    as (r0 & rb & m1 & m2 & Hr0 & Hnorm & Hm1 & Hm2 & Hbase & HD & HM & Hgeo
        & Hjoin & Hskip & Hlabel).
  destruct Hnorm as (Hdep & Hmun & (z & Hmes & Hz) & Hsex & Hage & Hcod & _).
  apply elem_of_app in Hc as [Hc|Hc].
  - rewrite Hbase by done. candidates Hc.
    + rewrite Hdep. by destruct (text_or_Str (NOFETAL_cod_depto df_nofetal) "" r0) as [? ->].
    + rewrite Hmun. by destruct (text_or_Str (NOFETAL_cod_mpio df_nofetal) "" r0) as [? ->].
    + by rewrite Hmes.
    + rewrite Hsex.
      by destruct (text_or_Str (NOFETAL_sexo df_nofetal) "No disponible" r0) as [? ->].
    + rewrite Hage. by destruct (text_or_Str (NOFETAL_grupoedad df_nofetal) "" r0) as [? ->].
    + rewrite Hcod. by destruct (text_or_Str (NOFETAL_codmuerte df_nofetal) "" r0) as [? ->].
  - candidates Hc; [done|done|by eapply causa_nombre_notna|by rewrite Hlabel].
Qed.

Lemma total_chart out v by_ :
  df df_nofetal df_divipola df_codes = Some out → by_ ⊆ canonical_fields →
  total (groupby_size by_ (rows (dff out v))) = length (rows (dff out v)).
Proof.
  intros Hout Hby. rewrite total_groupby_size. apply length_omap_Some.
  intros r Hr%dff_rows_subseteq. apply row_key_is_Some.
  intros c Hc. eapply record_notna; eauto.
Qed.

(** X14: on the table of the script, whatever is selected, the charts by
    department, by month, by department and sex, and by age group count
    every selected record once, and the ranked views count no more than
    the selected records. *)
Theorem update_all_totals out v :
  df df_nofetal df_divipola df_codes = Some out →
  let V := update_all out v in
  let n := length (rows (dff out v)) in
  total (map_fig V) = n ∧ total (fig_mes V) = n ∧ total (fig_stack V) = n ∧
  total (fig_hist V) = n ∧
  (total (fig_homicidios V) ≤ n)%nat ∧ (total (fig_low10 V) ≤ n)%nat ∧
  (total (table_top_causas V) ≤ n)%nat.
Proof.
  intros Hout V n. subst V n. cbn [update_all map_fig fig_mes fig_stack fig_hist
    fig_homicidios fig_low10 table_top_causas].
  split_and!.
  1-4: apply total_chart; [done|]; intros c Hc; candidates Hc; by_compute.
  - etrans; [apply total_head_sort_values|]. etrans; [apply total_groupby_size_le|].
    apply length_filter.
  - etrans; [apply total_head_sort_values|]. apply total_groupby_size_le.
  - etrans; [apply total_head_sort_values|]. apply total_groupby_size_le.
Qed.

(** X16: on the table of the script the chart by age group has at most
    twelve bars: the eleven labels of [age_map] and "Sin info". *)
Theorem fig_hist_labels out v :
  df df_nofetal df_divipola df_codes = Some out →
  let chart := fig_hist (update_all out v) in
  (length chart ≤ 12)%nat ∧
  ∀ k n, (k, n) ∈ chart → ∃ l, k = [KStr l] ∧ l ∈ "Sin info" :: age_labels.
Proof.
  intros Hout chart.
  assert (Hkeys : ∀ k, k ∈ chart.*1 → k ∈ (λ l, [KStr l]) <$> "Sin info" :: age_labels).
  { intros k Hk. subst chart. cbn [update_all fig_hist] in Hk.
    rewrite groupby_size_keys, merge_sort_Permutation, elem_of_remove_dups in Hk.
    apply list_elem_of_omap in Hk as (r & Hr%dff_rows_subseteq & Hk).
    destruct (df_row _ _ _ out r Hout Hr)
      as (r0 & rb & m1 & m2 & _ & _ & _ & _ & _ & _ & _ & _ & _ & _ & Hlabel).
    rewrite row_key_single, Hlabel in Hk. simpl in Hk. injection Hk as <-.
    apply (list_elem_of_fmap_2 (λ l, [KStr l])), map_age_label. }
  split.
  - rewrite <- (length_fmap fst chart).
    etrans; [apply submseteq_length, NoDup_submseteq; [|exact Hkeys]|].
    + subst chart. cbn [update_all fig_hist]. apply groupby_size_NoDup.
    + by vm_compute.
  - intros k n Hk.
    assert (Hin : k ∈ chart.*1) by (apply list_elem_of_fmap; by exists (k, n)).
    apply Hkeys, list_elem_of_fmap in Hin as (l & -> & Hl). eauto.
Qed.
End Charts.

(** ** The stacked chart and the chart by department *)

Lemma occurrences_filter {K} `{EqDecision K} (Q : K → Prop) `{∀ x, Decision (Q x)}
    (l : list K) (k : K) :
  Q k → occurrences (filter Q l) k = occurrences l k.
Proof.
  intros Hk. unfold occurrences. rewrite list_filter_filter. f_equal.
  apply list_filter_iff. intros x. split; [tauto|]. intros ->. done.
Qed.

(** The sizes of the groups whose keys start with [k] add up to the number
    of rows whose key starts with [k]. *)
Lemma total_filter_groupby_size by_ rs k :
  total (filter (λ kn, take 1 kn.1 = k) (groupby_size by_ rs))
  = length (filter (λ ks, take 1 ks = k) (omap (row_key by_) rs)).
Proof.
  unfold total, groupby_size. set (ks := omap (row_key by_) rs).
  assert (Hf : ∀ l : list (list Key),
    filter (λ kn : list Key * nat, take 1 kn.1 = k)
      ((λ k0, (k0, occurrences ks k0)) <$> l)
    = (λ k0, (k0, occurrences ks k0)) <$> filter (λ ks', take 1 ks' = k) l).
  { induction l as [|x l IH]; [done|].
    rewrite fmap_cons, !filter_cons. simpl.
    case_decide; [rewrite fmap_cons|]; by rewrite IH. }
  rewrite Hf, <- list_fmap_compose.
  rewrite (sum_list_Permutation _
             (occurrences ks <$> filter (λ ks', take 1 ks' = k) (remove_dups ks))).
  - rewrite <- (sum_occurrences (filter (λ ks', take 1 ks' = k) (remove_dups ks))
                                (filter (λ ks', take 1 ks' = k) ks)).
    + apply (f_equal sum_list), list_fmap_ext. intros i x Hx%list_elem_of_lookup_2.
      apply list_elem_of_filter in Hx as [Hx _]. symmetry.
      by apply (occurrences_filter (λ ks', take 1 ks' = k)).
    + apply NoDup_filter, NoDup_remove_dups.
    + intros x [? ?]%list_elem_of_filter. apply list_elem_of_filter. split; [done|].
      by apply elem_of_remove_dups.
  - apply fmap_Permutation. by rewrite merge_sort_Permutation.
Qed.

(** The rows with a given department, all of which have a sex, are those
    whose pair of keys starts with the department's. *)
Lemma length_filter_take1 rs k :
  (∀ r, r ∈ rs → isna (r "SEXO") = false) →
  length (filter (λ ks, take 1 ks = k) (omap (row_key ["DEPARTAMENTO"; "SEXO"]) rs))
  = length (filter (λ r, row_key ["DEPARTAMENTO"] r = Some k) rs).
Proof.
  induction rs as [|r rs IH]; intros Hsex; [done|].
  assert (IH' := IH (λ r' Hr', Hsex r' (list_elem_of_further _ _ _ Hr'))). clear IH.
  assert (Hs : isna (r "SEXO") = false) by (apply Hsex; constructor).
  destruct (key (r "SEXO")) as [s|] eqn:Hks; [|apply key_None in Hks; congruence].
  assert (Hrow2 : row_key ["DEPARTAMENTO"; "SEXO"] r
                  = (λ d, [d; s]) <$> key (r "DEPARTAMENTO")).
  { unfold row_key. cbn [mapM]. rewrite Hks. by destruct (key (r "DEPARTAMENTO")). }
  cbn [omap list_omap]. rewrite Hrow2.
  rewrite (filter_cons (λ r, row_key ["DEPARTAMENTO"] r = Some k)), row_key_single.
  destruct (key (r "DEPARTAMENTO")) as [d|]; cbn [fmap option_fmap option_map].
  - rewrite filter_cons. cbn [take]. destruct (decide ([d] = k)) as [Heq|Hne].
    + rewrite (decide_True (P := Some [d] = Some k)) by congruence. simpl. f_equal.
      exact IH'.
    + rewrite (decide_False (P := Some [d] = Some k)) by congruence. exact IH'.
  - rewrite decide_False by done. exact IH'.
Qed.

Section Stack.
Context `{NumericText} (df_nofetal df_divipola df_codes : DataFrame).

(** X15: on the table of the script, the bars stacked over a department in
    the chart by department and sex add up to the department's bar in the
    chart by department. *)
Theorem fig_stack_adds_up out v k n :
  df df_nofetal df_divipola df_codes = Some out →
  (k, n) ∈ map_fig (update_all out v) →
  total (filter (λ kn, take 1 kn.1 = k) (fig_stack (update_all out v))) = n.
Proof.
  intros Hout Hk. cbn [update_all map_fig fig_stack] in *.
  apply elem_of_groupby_size in Hk as [-> _].
  rewrite total_filter_groupby_size.
  apply length_filter_take1. intros r Hr%dff_rows_subseteq.
  eapply record_notna; eauto. by_compute.
Qed.
End Stack.

(** ** Column detection *)

Lemma find_col_loop_first cols candidates :
  match find_col_loop cols candidates with
  | Some c =>
      ∃ before after, candidates = (before ++ c :: after)%list ∧ c ∈ cols ∧
                      ∀ x, x ∈ before → x ∉ cols
  | None => ∀ x, x ∈ candidates → x ∉ cols
  end.
Proof.
  induction candidates as [|x cs IH]; simpl.
  - by intros x ?%elem_of_nil.
  - case_decide as Hx.
    + exists [], cs. split; [done|]. split; [done|]. by intros y ?%elem_of_nil.
    + destruct (find_col_loop cols cs) as [c|].
      * destruct IH as (before & after & -> & Hc & Hb).
        exists (x :: before), after. split; [done|]. split; [done|].
        intros y [->|Hy]%elem_of_cons; auto.
      * intros y [->|Hy]%elem_of_cons; auto.
Qed.

(** X3: [find_col] returns the first candidate that is a label of the
    table, and nothing exactly when no candidate is a label. *)
Theorem find_col_first df candidates :
  match find_col df candidates with
  | Some c =>
      ∃ before after, candidates = (before ++ c :: after)%list ∧ c ∈ columns df ∧
                      ∀ x, x ∈ before → x ∉ columns df
  | None => ∀ x, x ∈ candidates → x ∉ columns df
  end.
Proof. apply find_col_loop_first. Qed.

(** ** Stripped texts *)

Lemma lstrip_idemp s : lstrip (lstrip s) = lstrip s.
Proof.
  induction s as [|a s IH]; [done|]. simpl.
  destruct (is_space a) eqn:Ha; [done|]. simpl. by rewrite Ha.
Qed.




(** ** The records of the script *)


Section Schema.
Context `{NumericText} (df_nofetal df_divipola df_codes : DataFrame).

End Schema.

(** ** The geography of a record *)

Section Geography.
Context `{NumericText} (df_nofetal df_divipola df_codes : DataFrame).

(** The four labels found in the geography table are distinct, and none is
    a label that normalisation adds. *)
Lemma geo_labels_apart cd cm d m :
  DIV_cod_depto df_divipola = Some cd → DIV_cod_mpio df_divipola = Some cm →
  DIV_depto df_divipola = Some d → DIV_mpio df_divipola = Some m →
  (cd ≠ cm ∧ cd ≠ d ∧ cd ≠ m ∧ cm ≠ d ∧ cm ≠ m ∧ d ≠ m) ∧ m ≠ "DEPARTAMENTO" ∧
  Forall (λ c, c ∉ canonical_base) [cd; cm; d; m].
Proof.
  intros [Hcd _]%find_col_loop_Some [Hcm _]%find_col_loop_Some
         [Hd _]%find_col_loop_Some [Hm _]%find_col_loop_Some.
  candidates Hcd; candidates Hcm; candidates Hd; candidates Hm; by_compute.
Qed.

(** Lines 125-139 when the merge is made and the table has no column with
    the label of a name column: a record is a row of the table joined with
    a geography row that has its two codes, whose names it takes, or with
    none when no geography row has its two codes. *)
Lemma geo_join_matched base geo cd cm d m :
  geo_join df_divipola base = Some geo →
  DIV_cod_depto df_divipola = Some cd → DIV_cod_mpio df_divipola = Some cm →
  DIV_depto df_divipola = Some d → DIV_mpio df_divipola = Some m →
  canonical_base ⊆ columns base → d ∉ columns base → m ∉ columns base →
  ∀ r', r' ∈ rows geo →
    ∃ r, r ∈ rows base ∧
      (∀ c, c ∈ canonical_base → r' c = r c) ∧
      ((∃ x0, x0 ∈ rows df_divipola ∧
          Str (strip (astype_str (x0 cd))) = r "COD_DEPARTAMENTO_STR" ∧
          Str (strip (astype_str (x0 cm))) = r "COD_MUNICIPIO_STR" ∧
          r' "DEPARTAMENTO" = fillna (Str "Departamento desconocido") (x0 d) ∧
          r' "MUNICIPIO" = fillna (Str "Municipio desconocido") (x0 m)) ∨
       ((∀ x0, x0 ∈ rows df_divipola →
            ¬ (Str (strip (astype_str (x0 cd))) = r "COD_DEPARTAMENTO_STR" ∧
               Str (strip (astype_str (x0 cm))) = r "COD_MUNICIPIO_STR")) ∧
        r' "DEPARTAMENTO" = Str "Departamento desconocido" ∧
        r' "MUNICIPIO" = Str "Municipio desconocido")).
Proof.
  intros Hgeo Hcd Hcm Hd Hm Hcb Hdb Hmb r' Hr'.
  destruct (geo_labels_apart cd cm d m Hcd Hcm Hd Hm) as (Hnd & HmD & Hcan).
  destruct Hnd as (Hcdcm & Hcdd & Hcdm & Hcmd & Hcmm & Hdm).
  unfold geo_join in Hgeo.
  unfold DIV_cod_depto, DIV_cod_mpio, DIV_depto, DIV_mpio in *.
  rewrite !truthy_name_found in Hgeo by by_compute.
  rewrite Hcd, Hcm, Hd, Hm in Hgeo.
  destruct (divipola_keyed df_divipola cd cm d m) as [right|] eqn:Hright;
    simpl in Hgeo; [|done].
  destruct (merge_left base right _ _ _) as [merged|] eqn:Hmerge; simpl in Hgeo; [|done].
  case_decide as Hdm'; [|done]. injection Hgeo as <-.
  apply merge_left_Some in Hmerge as (Hndl & Hndr & Hcols & Hrows).
  unfold divipola_keyed, select in Hright. case_decide; [|done].
  injection Hright as <-. simpl in *.
  set (ov := filter (λ c, c ∈ [cd; cm; d; m]) (columns base)) in *.
  set (J := joined (rename ov "") (rename ov "_DIV") (columns base) [cd; cm; d; m]) in *.
  assert (HJl : ∀ r mm c, c ∈ columns base → J r mm c = r c).
  { intros r mm c Hc. apply joined_left; [done..|apply rename_empty]. }
  assert (HJr : ∀ r mm c, c ∈ [cd; cm; d; m] → c ∉ columns base →
                          J r mm c = from_option (λ x, x c) NaN mm).
  { intros r mm c Hc Hcb'.
    assert (Hren : rename ov "_DIV" c = c).
    { apply rename_outside. intros [_ ?]%list_elem_of_filter. done. }
    rewrite <- Hren at 1. apply joined_right; [|done..].
    intros c' Hc'. rewrite rename_empty, Hren. by intros ->. }
  rewrite <- list_fmap_compose in Hr'. apply list_elem_of_fmap in Hr' as (j & -> & Hj).
  rewrite Hrows in Hj. apply list_elem_of_bind in Hj as (r & Hj & Hr).
  apply list_elem_of_fmap in Hj as (mm & -> & Hmm). fold J.
  exists r. split; [done|]. split.
  { intros c Hc. unfold compose. rewrite !set_cell_ne by (candidates Hc; done).
    apply HJl. by apply Hcb. }
  unfold compose. rewrite (set_cell_ne "MUNICIPIO" _ _ "DEPARTAMENTO") by by_compute.
  rewrite !set_cell_eq. rewrite (set_cell_ne "DEPARTAMENTO" _ _ m) by done.
  rewrite !HJr by (done || (rewrite !elem_of_cons; auto)).
  destruct mm as [x|]; simpl.
  - left. apply elem_of_partners in Hmm as [Hx Hkey].
    rewrite <- list_fmap_compose in Hx. apply list_elem_of_fmap in Hx as (x0 & -> & Hx0).
    exists x0. split; [done|]. injection Hkey as <- <-. unfold compose, str_strip.
    rewrite (set_cell_ne cm _ _ cd), set_cell_eq by done.
    rewrite set_cell_eq, (set_cell_ne cd _ _ cm) by done.
    rewrite !(set_cell_ne cm), !(set_cell_ne cd) by done. done.
  - right. split; [|done]. intros x0 Hx0 [Hk1 Hk2].
    pose proof (proj1 (None_in_partners _ _ _ _) Hmm) as Hno.
    apply (Hno (set_cell cm (str_strip cm (set_cell cd (str_strip cd x0) x0))
                  (set_cell cd (str_strip cd x0) x0))).
    + simpl. apply (list_elem_of_fmap_2 (λ r : Row, set_cell cm (str_strip cm r) r)).
      by apply (list_elem_of_fmap_2 (λ r : Row, set_cell cd (str_strip cd r) r)).
    + simpl. unfold str_strip.
      rewrite (set_cell_ne cm _ _ cd), !set_cell_eq, (set_cell_ne cd _ _ cm) by done.
      by rewrite Hk1, Hk2.
Qed.

(** X7: the names of a record, when the geography merge is made and the
    mortality table has no column with the label of a name column. Either
    a geography row has the record's two codes as stripped text, and the
    record takes its names from that row, a name that is a text as it is
    and an empty name as its sentinel; or no geography row has the two
    codes, and both names are the sentinels. *)
Theorem geography_of_record out cd cm d m :
  df df_nofetal df_divipola df_codes = Some out →
  DIV_cod_depto df_divipola = Some cd → DIV_cod_mpio df_divipola = Some cm →
  DIV_depto df_divipola = Some d → DIV_mpio df_divipola = Some m →
  d ∉ columns df_nofetal → m ∉ columns df_nofetal →
  ∀ r, r ∈ rows out →
    (∃ x0, x0 ∈ rows df_divipola ∧
       Str (strip (astype_str (x0 cd))) = r "COD_DEPARTAMENTO_STR" ∧
       Str (strip (astype_str (x0 cm))) = r "COD_MUNICIPIO_STR" ∧
       (is_text (x0 d) = true ∨ isna (x0 d) = true →
        r "DEPARTAMENTO" = fillna (Str "Departamento desconocido") (x0 d)) ∧
       (is_text (x0 m) = true ∨ isna (x0 m) = true →
        r "MUNICIPIO" = fillna (Str "Municipio desconocido") (x0 m))) ∨
    ((∀ x0, x0 ∈ rows df_divipola →
         ¬ (Str (strip (astype_str (x0 cd))) = r "COD_DEPARTAMENTO_STR" ∧
            Str (strip (astype_str (x0 cm))) = r "COD_MUNICIPIO_STR")) ∧
     r "DEPARTAMENTO" = Str "Departamento desconocido" ∧
     r "MUNICIPIO" = Str "Municipio desconocido").
Proof.
  intros (base & geo & cause & Hbase & Hgeo & Hcause & ->)%df_stages
         Hcd Hcm Hd Hm Hdn Hmn r' Hr'.
  destruct (geo_labels_apart cd cm d m Hcd Hcm Hd Hm) as (_ & _ & Hcan).
  rewrite !Forall_cons in Hcan. destruct Hcan as (_ & _ & Hdc & Hmc & _).
  apply df_base_rows in Hbase as (Hb1 & Hb2 & Hb3 & _).
  pose proof (geo_join_matched base geo cd cm d m Hgeo Hcd Hcm Hd Hm Hb2) as Hmatch.
  apply geo_join_rows in Hgeo as (g1 & _ & Hgc & HgD & HgM & _).
  apply cause_join_rows in Hcause as (g2 & Hg2 & _ & _ & Hckeep & _);
    [|apply Hgc, Hb2; by_compute].
  simpl in Hr'. apply list_elem_of_fmap in Hr' as (rc & -> & Hrc).
  rewrite Hg2 in Hrc. apply list_elem_of_bind in Hrc as (rg & Hrc & Hrg).
  apply list_elem_of_fmap in Hrc as (m2 & -> & _).
  destruct (Hmatch) with (r' := rg) as (r & Hr & Hkeep & Hnames); [| |done|].
  { intros [?|?]%Hb3; done. }
  { intros [?|?]%Hb3; done. }
  rewrite !(set_cell_ne "GRUPO_EDAD_LABEL") by done.
  rewrite !Hckeep by (done || by_compute || (apply Hgc, Hb2; by_compute)).
  rewrite <- !Hkeep in Hnames by by_compute.
  destruct Hnames as [(x0 & Hx0 & Hk1 & Hk2 & HD & HM)|Hnone]; [left|by right].
  exists x0. split_and!; auto.
Qed.
End Geography.

(** ** When the script builds its table *)

Lemma NoDup_with_column name cols : NoDup cols → NoDup (with_column name cols).
Proof.
  intros Hnd. unfold with_column. case_decide; [done|].
  apply NoDup_app. split; [done|]. split; [|apply NoDup_singleton].
  by intros x Hx ->%list_elem_of_singleton.
Qed.

Lemma assignM_is_Some name f df :
  Forall (λ r, is_Some (f r)) (rows df) → is_Some (assignM name f df).
Proof.
  intros Hf. unfold assignM.
  destruct (mapM _ (rows df)) as [rs|] eqn:Hrs; simpl; [eauto|].
  apply mapM_None_1, Exists_exists in Hrs as (r & Hr & Hnone).
  rewrite Forall_forall in Hf. destruct (Hf r Hr) as [v Hv].
  rewrite Hv in Hnone. done.
Qed.

Lemma filter_none {A} (P : A → Prop) `{∀ x, Decision (P x)} (l : list A) :
  (∀ x, x ∈ l → ¬ P x) → filter P l = [].
Proof.
  induction l as [|a l IH]; intros Hno; [done|].
  rewrite filter_cons_False by (apply Hno; constructor).
  apply IH. intros x Hx. apply Hno. by constructor.
Qed.

Lemma fmap_rename_empty overlap (cols : list string) : rename overlap "" <$> cols = cols.
Proof.
  etrans; [|apply list_fmap_id]. apply list_fmap_ext. intros; apply rename_empty.
Qed.

Lemma fmap_rename_nil suffix (cols : list string) : rename [] suffix <$> cols = cols.
Proof.
  etrans; [|apply list_fmap_id]. apply list_fmap_ext. intros.
  apply rename_outside, not_elem_of_nil.
Qed.

Lemma cause_labels_not_geo c x :
  c ∈ cause_labels → x ∈ geo_labels →
  c ≠ x ∧ c ≠ x +:+ "_DIV" ∧ c ∉ canonical_base.
Proof.
  unfold cause_labels, geo_labels. intros Hc Hx.
  candidates Hc; candidates Hx; by_compute.
Qed.

Section Runs.
Context `{NumericText} (df_nofetal df_divipola df_codes : DataFrame).

Lemma df_base_is_Some :
  Forall (λ r0, is_Some (month_or (NOFETAL_mes df_nofetal) r0)) (rows df_nofetal) →
  is_Some (df_base df_nofetal).
Proof.
  intros Hm. unfold df_base, NOFETAL_cod_depto, NOFETAL_cod_mpio, NOFETAL_mes,
    NOFETAL_sexo, NOFETAL_grupoedad, NOFETAL_codmuerte in *.
  rewrite !truthy_name_found by by_compute. cbv zeta.
  set (d2 := assign "COD_MUNICIPIO_STR" _ _).
  assert (Hd2 : columns df_nofetal ⊆ columns d2).
  { subst d2. simpl. etrans; [|apply with_column_subseteq]. apply with_column_subseteq. }
  rewrite name_in_found by (by_compute || done).
  assert (His : is_Some (assignM "MES_NUM" (month_or (find_col df_nofetal ["MES"])) d2)).
  { apply assignM_is_Some. subst d2. simpl. rewrite !Forall_fmap.
    eapply Forall_impl; [exact Hm|]. intros r0 Hr0. simpl.
    unfold month_or, find_col in *.
    destruct (find_col_loop _ ["MES"]) as [c|] eqn:Hc; [|done].
    apply find_col_loop_Some in Hc as [Hc _]. candidates Hc.
    unfold month_num in *. by cells. }
  destruct His as [d3 ->]. simpl. eauto.
Qed.

Lemma df_base_NoDup base :
  df_base df_nofetal = Some base → NoDup (columns df_nofetal) → NoDup (columns base).
Proof.
  unfold df_base. intros Hb Hnd. cbv zeta in Hb.
  destruct (assignM "MES_NUM" _ _) as [d3|] eqn:Hd3; simpl in Hb; [|done].
  apply assignM_Some in Hd3 as [Hc3 _]. injection Hb as <-. simpl.
  rewrite Hc3. simpl. by do 6 apply NoDup_with_column.
Qed.

(** The four labels found in the geography table are candidates and labels
    of that table. *)
Lemma geo_found cd cm d m :
  DIV_cod_depto df_divipola = Some cd → DIV_cod_mpio df_divipola = Some cm →
  DIV_depto df_divipola = Some d → DIV_mpio df_divipola = Some m →
  Forall (λ x, x ∈ geo_labels ∧ x ∈ columns df_divipola) [cd; cm; d; m].
Proof.
  intros [Hcd ?]%find_col_loop_Some [Hcm ?]%find_col_loop_Some
         [Hd ?]%find_col_loop_Some [Hm ?]%find_col_loop_Some.
  repeat (apply Forall_cons; split); [..|done]; (split; [|done]).
  - candidates Hcd; by_compute.
  - candidates Hcm; by_compute.
  - candidates Hd; by_compute.
  - candidates Hm; by_compute.
Qed.

Lemma renamed_geo_NoDup ov cd cm d m :
  DIV_cod_depto df_divipola = Some cd → DIV_cod_mpio df_divipola = Some cm →
  DIV_depto df_divipola = Some d → DIV_mpio df_divipola = Some m →
  NoDup (rename ov "_DIV" <$> [cd; cm; d; m]).
Proof.
  intros [Hcd _]%find_col_loop_Some [Hcm _]%find_col_loop_Some
         [Hd _]%find_col_loop_Some [Hm _]%find_col_loop_Some.
  candidates Hcd; candidates Hcm; candidates Hd; candidates Hm;
    unfold rename; simpl; repeat case_decide; by_compute.
Qed.

Lemma geo_join_is_Some base :
  NoDup (columns base) → canonical_base ⊆ columns base →
  (∀ x, x ∈ geo_labels → x +:+ "_DIV" ∉ columns base) →
  (∀ c, c ∈ cause_labels → c ∉ columns base) →
  ∃ geo, geo_join df_divipola base = Some geo ∧ NoDup (columns geo) ∧
         "COD_MUERTE_STR" ∈ columns geo ∧
         (∀ c, c ∈ cause_labels → c ∉ columns geo).
Proof.
  intros Hnd Hcb Hdiv Hcause.
  assert (Hskip : ∃ geo,
    Some (assign "MUNICIPIO" (λ _, Str "Municipio desconocido")
            (assign "DEPARTAMENTO" (λ _, Str "Departamento desconocido") base))
    = Some geo ∧ NoDup (columns geo) ∧ "COD_MUERTE_STR" ∈ columns geo ∧
    (∀ c, c ∈ cause_labels → c ∉ columns geo)).
  { eexists. split; [reflexivity|]. simpl. split_and!.
    - by do 2 apply NoDup_with_column.
    - rewrite !elem_of_with_column. right. right. apply Hcb. by_compute.
    - intros c Hc. rewrite !elem_of_with_column.
      destruct (cause_labels_not_geo c "MUNICIPIO" Hc) as (? & _); [by_compute|].
      destruct (cause_labels_not_geo c "DEPARTAMENTO" Hc) as (? & _); [by_compute|].
      specialize (Hcause c Hc). tauto. }
  unfold geo_join.
  destruct (truthy_name (DIV_cod_depto df_divipola)) as [cd|] eqn:Hcd; [|exact Hskip].
  destruct (truthy_name (DIV_cod_mpio df_divipola)) as [cm|] eqn:Hcm; [|exact Hskip].
  destruct (truthy_name (DIV_depto df_divipola)) as [d|] eqn:Hd; [|exact Hskip].
  destruct (truthy_name (DIV_mpio df_divipola)) as [m|] eqn:Hm; [|exact Hskip].
  clear Hskip.
  apply truthy_name_Some in Hcd as [Hcd _], Hcm as [Hcm _], Hd as [Hd _], Hm as [Hm _].
  pose proof (geo_found cd cm d m Hcd Hcm Hd Hm) as Hfound.
  pose proof (λ ov, renamed_geo_NoDup ov cd cm d m Hcd Hcm Hd Hm) as Hren.
  assert (Hfour : ∀ x, x ∈ [cd; cm; d; m] → x ∈ geo_labels ∧ x ∈ columns df_divipola).
  { by apply Forall_forall. }
  unfold divipola_keyed, select. rewrite decide_True; cycle 1.
  { intros x Hx. simpl. rewrite !elem_of_with_column. right. right. by apply Hfour. }
  cbn [mbind option_bind]. unfold merge_left. cbn [columns rows fst snd].
  set (ov := filter (λ c, c ∈ [cd; cm; d; m]) (columns base)).
  rewrite decide_True; cycle 1.
  { split_and!.
    - intros c Hc. apply Hcb. candidates Hc; by_compute.
    - intros c Hc. candidates Hc; rewrite !elem_of_cons; auto.
    - by rewrite fmap_rename_empty.
    - apply Hren. }
  cbn [mbind option_bind columns rows]. rewrite fmap_rename_empty.
  assert (Hright : ∀ x, x ∈ [cd; cm; d; m] → rename ov "_DIV" x ∉ columns base).
  { intros x Hx. unfold rename. case_decide as Hov.
    - apply Hdiv. by apply Hfour.
    - intros Hb. apply Hov. apply list_elem_of_filter. done. }
  assert (Hin : ∀ x, x ∈ [cd; cm; d; m] →
                     x ∈ (columns base ++ (rename ov "_DIV" <$> [cd; cm; d; m]))%list).
  { intros x Hx. apply elem_of_app.
    destruct (decide (x ∈ columns base)) as [?|Hb]; [by left|].
    right. apply list_elem_of_fmap. exists x. split; [|done].
    symmetry. apply rename_outside. intros [_ ?]%list_elem_of_filter. done. }
  rewrite decide_True; cycle 1.
  { split; apply Hin; rewrite !elem_of_cons; auto. }
  eexists. split; [reflexivity|]. cbn [columns assign]. split_and!.
  - do 2 apply NoDup_with_column. apply NoDup_app. split; [done|]. split; [|apply Hren].
    intros x Hx (y & -> & Hy)%list_elem_of_fmap. by apply (Hright y).
  - rewrite !elem_of_with_column, elem_of_app. right. right. left. apply Hcb. by_compute.
  - intros c Hc. rewrite !elem_of_with_column, elem_of_app.
    destruct (cause_labels_not_geo c "MUNICIPIO" Hc) as (? & _); [by_compute|].
    destruct (cause_labels_not_geo c "DEPARTAMENTO" Hc) as (? & _); [by_compute|].
    specialize (Hcause c Hc).
    intros [?|[?|[?|(y & Hy & Hy')%list_elem_of_fmap]]]; try done.
    destruct (cause_labels_not_geo c y Hc) as (? & ? & _); [by apply Hfour|].
    unfold rename in Hy. case_decide; done.
Qed.

Lemma cause_join_is_Some geo :
  NoDup (columns geo) → "COD_MUERTE_STR" ∈ columns geo →
  (∀ c, c ∈ cause_labels → c ∉ columns geo) →
  is_Some (cause_join df_codes geo).
Proof.
  intros Hnd Hcod Hcause. unfold cause_join.
  destruct (name_in (CODES_code_col df_codes) df_codes) as [code|] eqn:Hcode; [|eauto].
  destruct (name_in (CODES_name_col df_codes) df_codes) as [name|] eqn:Hname; [|eauto].
  apply name_in_Some in Hcode as (Hcode & _ & Hcodein), Hname as (Hname & _ & Hnamein).
  destruct (cause_labels_apart df_codes code name Hcode Hname) as (Hcn & _).
  assert (Hc1 : code ∈ cause_labels).
  { apply find_col_loop_Some in Hcode as [Hc _]. candidates Hc; by_compute. }
  assert (Hc2 : name ∈ cause_labels).
  { apply find_col_loop_Some in Hname as [Hc _]. candidates Hc; by_compute. }
  unfold codes_keyed, select. rewrite decide_True; cycle 1.
  { intros x Hx. simpl. rewrite !elem_of_with_column. right. right.
    apply elem_of_cons in Hx as [->|Hx%list_elem_of_singleton]; by subst. }
  cbn [mbind option_bind]. unfold merge_left. cbn [columns rows fst snd].
  assert (filter (λ c, c ∈ [code; name]) (columns geo) = []) as ->.
  { apply filter_none. intros c Hc [->|Hin%list_elem_of_singleton]%elem_of_cons.
    - by apply (Hcause code).
    - subst. by apply (Hcause name). }
  rewrite decide_True; cycle 1.
  { split_and!.
    - by intros c ->%list_elem_of_singleton.
    - intros c ->%list_elem_of_singleton. constructor.
    - by rewrite fmap_rename_nil.
    - rewrite (fmap_rename_nil "_y" [code; name]).
      apply NoDup_cons. split; [|apply NoDup_singleton].
      by intros ?%list_elem_of_singleton. }
  cbn [mbind option_bind columns rows]. rewrite !fmap_rename_nil.
  rewrite decide_True; [eauto|].
  rewrite !elem_of_app. split; [right|by left]. apply elem_of_cons. right. constructor.
Qed.

(** Lines 90-199 give the table when the labels of the mortality table are
    distinct, none of them is a label of the geography table followed by
    "_DIV" or a candidate label of the cause table, and every month can be
    cast. *)
Lemma df_is_Some :
  NoDup (columns df_nofetal) →
  (∀ c, c ∈ (((λ x, x +:+ "_DIV") <$> geo_labels) ++ cause_labels)%list →
        c ∉ columns df_nofetal) →
  Forall (λ r0, is_Some (month_or (NOFETAL_mes df_nofetal) r0)) (rows df_nofetal) →
  is_Some (df df_nofetal df_divipola df_codes).
Proof.
  intros Hnd Hres Hm. unfold df.
  destruct (df_base_is_Some Hm) as [base Hbase]. rewrite Hbase. simpl.
  pose proof (df_base_NoDup base Hbase Hnd) as Hbnd.
  apply df_base_rows in Hbase as (Hb1 & Hb2 & Hb3 & _).
  destruct (geo_join_is_Some base) as (geo & -> & Hgnd & Hgcod & Hgcause).
  - done.
  - done.
  - intros x Hx [Hin|Hin]%Hb3.
    + apply (Hres (x +:+ "_DIV")); [|done]. apply elem_of_app. left.
      by apply (list_elem_of_fmap_2 (λ x, x +:+ "_DIV")).
    + revert Hin. unfold geo_labels in Hx. candidates Hx; by_compute.
  - intros c Hc [Hin|Hin]%Hb3.
    + apply (Hres c); [|done]. apply elem_of_app. by right.
    + by destruct (cause_labels_not_geo c "MUNICIPIO" Hc) as (_ & _ & ?); [by_compute|].
  - simpl. destruct (cause_join_is_Some geo Hgnd Hgcod Hgcause) as [cause ->]. simpl. eauto.
Qed.
End Runs.

Section Built.
Context `{NumericText} (df_nofetal df_divipola df_codes : DataFrame).

Lemma df_Some_months out :
  df df_nofetal df_divipola df_codes = Some out →
  Forall (λ r0, is_Some (month_or (NOFETAL_mes df_nofetal) r0)) (rows df_nofetal).
Proof.
  intros (base & geo & cause & Hbase & _)%df_stages.
  apply df_base_rows in Hbase as (_ & _ & _ & Hrows).
  apply Forall_forall. intros r0 Hr0.
  apply list_elem_of_lookup in Hr0 as [i Hi].
  destruct (Forall2_lookup_l _ _ _ _ _ Hrows Hi) as (r & _ & Hnorm).
  destruct Hnorm as (_ & _ & (z & _ & ->) & _). eauto.
Qed.


(** X5: a month that is an infinity cannot be cast to an integer; the
    script stops at line 103 and builds no table. *)
Theorem df_stops_on_infinite_month r0 neg :
  "MES" ∈ columns df_nofetal → r0 ∈ rows df_nofetal →
  r0 "MES" = Flt (S754_infinity neg) →
  df df_nofetal df_divipola df_codes = None.
Proof.
  intros Hmes Hr0 Hinf.
  destruct (df df_nofetal df_divipola df_codes) as [out|] eqn:Hout; [|done].
  apply df_Some_months in Hout. rewrite Forall_forall in Hout.
  destruct (Hout r0 Hr0) as [v Hv]. unfold NOFETAL_mes, find_col in Hv. simpl in Hv.
  rewrite decide_True in Hv by done. simpl in Hv. unfold month_num in Hv.
  rewrite Hinf in Hv. done.
Qed.
End Built.

(** ** Missing files *)

Lemma update_all_no_rows df v :
  rows df = [] →
  update_all df v = {| geo_msg := ""; map_fig := []; fig_mes := []; fig_homicidios := [];
                       fig_low10 := []; fig_stack := []; fig_hist := [];
                       table_top_causas := [] |}.
Proof.
  intros Hrows. unfold update_all.
  assert (rows (dff df v) = []) as ->; [|reflexivity].
  unfold dff. destruct (_ && _); [|done]. simpl. by rewrite Hrows.
Qed.

Section Files.
Context `{NumericText}.

Lemma df_no_rows df_nofetal df_divipola df_codes out :
  df df_nofetal df_divipola df_codes = Some out → rows df_nofetal = [] →
  rows out = [].
Proof.
  intros (base & geo & cause & Hbase & Hgeo & Hcause & ->)%df_stages Hrows.
  apply df_base_rows in Hbase as (_ & Hb2 & _ & Hb4).
  apply geo_join_rows in Hgeo as (g1 & Hg1 & Hgc & _).
  apply cause_join_rows in Hcause as (g2 & Hg2 & _); [|apply Hgc, Hb2; by_compute].
  rewrite Hrows in Hb4. apply Forall2_nil_inv_l in Hb4.
  simpl. rewrite Hg2, Hg1, Hb4. done.
Qed.

(** X1: when the mortality workbook is missing or cannot be read,
    [safe_read_excel] prints one line and returns the empty table; whatever
    the other two files are, their labels being distinct once stripped, the
    script builds a table with the ten canonical columns and no record, the
    card shows three zeros, the dropdown offers "Todos" only, and the
    callback returns empty charts. *)
Theorem missing_mortality_file (p1 p2 p3 : Path) (nofetal divipola codes : File) :
  nofetal = Absent ∨ (∃ e, nofetal = Unreadable e) →
  NoDup (columns (load p2 divipola)) → NoDup (columns (load p3 codes)) →
  (∃ line, safe_read_excel p1 nofetal = (no_sheet, [line])) ∧
  ∃ out,
    df (load p1 nofetal) (load p2 divipola) (load p3 codes) = Some out ∧
    canonical_fields ⊆ columns out ∧ rows out = [] ∧
    summary out = {| registros_totales := 0; departamentos_detectados := 0;
                     municipios_detectados := 0 |} ∧
    dropdown_options out = Some [ {| label := Str "Todos"; value := Str "_ALL_" |} ] ∧
    ∀ v, update_all out v
         = {| geo_msg := ""; map_fig := []; fig_mes := []; fig_homicidios := [];
              fig_low10 := []; fig_stack := []; fig_hist := [];
              table_top_causas := [] |}.
Proof.
  intros Hfile _ _.
  assert (Hread : ∃ line, safe_read_excel p1 nofetal = (no_sheet, [line])).
  { destruct Hfile as [->|[e ->]]; simpl; eauto. }
  split; [done|]. destruct Hread as [line Hread].
  assert (Hload : load p1 nofetal = empty_frame).
  { unfold load. by rewrite Hread. }
  rewrite Hload.
  destruct (df_is_Some empty_frame (load p2 divipola) (load p3 codes)) as [out Hout].
  - constructor.
  - intros c _. apply not_elem_of_nil.
  - constructor.
  - exists out. split; [done|].
    pose proof (df_no_rows _ _ _ _ Hout eq_refl) as Hrows.
    split; [by eapply df_columns|]. split; [done|]. split_and!.
    + unfold summary, nunique. by rewrite Hrows.
    + unfold dropdown_options, dept_options. by rewrite Hrows.
    + intros v. by apply update_all_no_rows.
Qed.
End Files.

(** ** The dropdown *)

#[global] Instance cell_le_total : Total cell_le.
Proof.
  intros a b. unfold cell_le. destruct (key a) as [x|], (key b) as [y|]; auto.
  rewrite (key_compare_antisym x y). destruct (key_compare x y); simpl; auto.
Qed.

Lemma is_text_key c : is_text c = true ↔ ∃ s, key c = Some (KStr s).
Proof.
  destruct c as [z|x|s]; simpl; split; try done; try (intros [s' Hs]); eauto.
  - unfold dyadic in Hs. destruct z; [done| |]; by destruct (odd_part _ _).
  - destruct x as [| | |neg m e]; try done.
    unfold dyadic in Hs. destruct neg; by destruct (odd_part _ _).
Qed.

Lemma is_text_same_key a b k : key a = Some k → key b = Some k → is_text a = is_text b.
Proof.
  intros Ha Hb. destruct (is_text a) eqn:Ea, (is_text b) eqn:Eb; try done.
  - apply is_text_key in Ea as [s Hs]. rewrite Hs in Ha. injection Ha as <-.
    assert (is_text b = true) by (apply is_text_key; eauto). congruence.
  - apply is_text_key in Eb as [s Hs]. rewrite Hs in Hb. injection Hb as <-.
    assert (is_text a = true) by (apply is_text_key; eauto). congruence.
Qed.

Lemma unique_from_subseteq seen vals : unique_from seen vals ⊆ vals.
Proof.
  revert seen. induction vals as [|v vals IH]; intros seen; simpl; [done|].
  case_decide.
  - intros x Hx. apply elem_of_cons. right. by eapply IH.
  - intros x [->|Hx]%elem_of_cons; [constructor|].
    apply elem_of_cons. right. by eapply IH.
Qed.

(** Every value has a value equal to it among the distinct values. *)
Lemma unique_from_py_eq vals d :
  d ∈ vals → isna d = false → ∃ u, u ∈ unique_from [] vals ∧ py_eq u d = true.
Proof.
  intros Hd Hna. destruct (key d) as [k|] eqn:Hk; [|by apply key_None in Hk; congruence].
  destruct (unique_from_cover [] vals k) as [?%elem_of_nil|Hin]; [|done|].
  { apply list_elem_of_omap. eauto. }
  apply list_elem_of_omap in Hin as (u & Hu & Hku).
  exists u. split; [done|]. apply py_eq_key. eauto.
Qed.

Lemma sorted_is_Some values :
  is_Some (sorted values) ↔
  Forall (λ d, is_text d = true) values ∨ Forall (λ d, is_text d = false) values.
Proof.
  unfold sorted. destruct (forallb is_text values) eqn:E1; simpl.
  - split; [|eauto]. intros _. left. apply Forall_forall. intros d Hd.
    rewrite forallb_forall in E1. apply E1. by apply list_elem_of_In.
  - destruct (forallb (λ c, negb (is_text c)) values) eqn:E2.
    + split; [|eauto]. intros _. right. apply Forall_forall. intros d Hd.
      rewrite forallb_forall in E2. apply negb_true_iff, E2. by apply list_elem_of_In.
    + split; [by intros [? ?]|]. intros [Hall|Hall]; exfalso.
      * assert (forallb is_text values = true); [|congruence].
        apply forallb_forall. intros d Hd%list_elem_of_In.
        rewrite Forall_forall in Hall. by apply Hall.
      * assert (forallb (λ c, negb (is_text c)) values = true); [|congruence].
        apply forallb_forall. intros d Hd%list_elem_of_In.
        rewrite Forall_forall in Hall. apply negb_true_iff. by apply Hall.
Qed.

Lemma sorted_Some values s :
  sorted values = Some s → s ≡ₚ values ∧ Sorted cell_le s.
Proof.
  unfold sorted. destruct (_ || _); [|done]. intros [= <-]. split.
  - apply merge_sort_Permutation.
  - apply (Sorted_merge_sort _).
Qed.

Lemma dept_options_Some df opts :
  dept_options df = Some opts →
  ∃ s, s ≡ₚ unique_from [] (fillna (Str "Departamento desconocido")
                              <$> ((λ r : Row, r "DEPARTAMENTO") <$> rows df)) ∧
       Sorted cell_le s ∧ opts = (λ d, {| label := d; value := d |}) <$> s ∧
       value <$> opts = s.
Proof.
  unfold dept_options. intros (s & Hs & ->)%fmap_Some.
  apply sorted_Some in Hs as [Hperm Hsorted]. exists s. split_and!; try done.
  rewrite <- list_fmap_compose. etrans; [|apply list_fmap_id]. by apply list_fmap_ext.
Qed.

(** X9: line 207. The options can be computed unless the departments, an
    empty one counting as "Departamento desconocido", are texts for some
    records and numbers for others. There is then one option for each
    department, no two options being equal; each has its department as
    label and as value, and the options are in increasing order. *)
Theorem dept_options_spec df :
  let departments :=
    fillna (Str "Departamento desconocido") <$> ((λ r : Row, r "DEPARTAMENTO") <$> rows df) in
  (is_Some (dept_options df) ↔
   Forall (λ d, is_text d = true) departments ∨
   Forall (λ d, is_text d = false) departments) ∧
  ∀ opts, dept_options df = Some opts →
    Forall (λ o, label o = value o ∧ value o ∈ departments) opts ∧
    (∀ d, d ∈ departments → ∃ o, o ∈ opts ∧ py_eq (value o) d = true) ∧
    NoDup (omap key (value <$> opts)) ∧
    Sorted cell_le (value <$> opts).
Proof.
  intros departments.
  assert (Hna : ∀ d, d ∈ departments → isna d = false).
  { intros d (c & -> & _)%list_elem_of_fmap. apply isna_fillna. }
  split.
  - unfold dept_options. fold departments. rewrite fmap_is_Some, sorted_is_Some. split.
    + intros [Hall|Hall]; [left|right]; apply Forall_forall; intros d Hd;
        destruct (unique_from_py_eq departments d Hd (Hna d Hd)) as (u & Hu & Heq);
        apply py_eq_key in Heq as (k & Hku & Hkd);
        rewrite <- (is_text_same_key u d k Hku Hkd);
        rewrite Forall_forall in Hall; by apply Hall.
    + intros [Hall|Hall]; [left|right]; apply Forall_forall; intros u Hu%unique_from_subseteq;
        rewrite Forall_forall in Hall; by apply Hall.
  - intros opts (s & Hperm & Hsorted & -> & Hvalues)%dept_options_Some.
    fold departments in Hperm. rewrite Hvalues. split_and!.
    + apply Forall_fmap, Forall_forall. intros d Hd. simpl. split; [done|].
      rewrite Hperm in Hd. by apply unique_from_subseteq in Hd.
    + intros d Hd. destruct (unique_from_py_eq departments d Hd (Hna d Hd)) as (u & Hu & Heq).
      exists {| label := u; value := u |}. split; [|done].
      apply (list_elem_of_fmap_2 (λ d, {| label := d; value := d |})). by rewrite Hperm.
    + rewrite Hperm. apply unique_from_NoDup.
    + done.
Qed.

Lemma fmap_id_on {A} (f : A → A) (l : list A) : (∀ x, x ∈ l → f x = x) → f <$> l = l.
Proof.
  intros Hf. etrans; [|apply list_fmap_id]. apply list_fmap_ext.
  intros i x Hx. apply Hf. by eapply list_elem_of_lookup_2.
Qed.

Lemma omap_fmap {A B C} (f : B → option C) (g : A → B) (l : list A) :
  omap f (g <$> l) = omap (λ x, f (g x)) l.
Proof.
  induction l as [|a l IH]; [done|]. cbn [fmap list_fmap omap list_omap].
  by rewrite <- IH.
Qed.

Section Dropdown.
Context `{NumericText} (df_nofetal df_divipola df_codes : DataFrame).

(** On the table of the script no department is empty, so that the
    departments of the dropdown are those of the records. *)
Lemma departments_notna out :
  df df_nofetal df_divipola df_codes = Some out →
  fillna (Str "Departamento desconocido") <$> ((λ r : Row, r "DEPARTAMENTO") <$> rows out)
  = (λ r : Row, r "DEPARTAMENTO") <$> rows out.
Proof.
  intros Hout. apply fmap_id_on. intros d (r & -> & Hr)%list_elem_of_fmap.
  unfold fillna. erewrite record_notna; eauto. by_compute.
Qed.

(** X10: on the table of the script, the dropdown has as many department
    options as the card counts departments, and each of them, when
    selected, gives a chart by department with one bar, which is not
    empty. *)
Theorem dropdown_options_live out opts :
  df df_nofetal df_divipola df_codes = Some out → dept_options out = Some opts →
  length opts = departamentos_detectados (summary out) ∧
  ∀ o, o ∈ opts →
    truthy (PVal (value o)) = true → py_eq (Str "_ALL_") (value o) = false →
    ∃ k n, (0 < n)%nat ∧ map_fig (update_all out (PVal (value o))) = [([k], n)].
Proof.
  intros Hout (s & Hperm & _ & -> & Hvalues)%dept_options_Some.
  rewrite (departments_notna out Hout) in Hperm.
  set (col := (λ r : Row, r "DEPARTAMENTO") <$> rows out) in *.
  assert (Hcol : ∀ d, d ∈ col → isna d = false).
  { intros d (r & -> & Hr)%list_elem_of_fmap. eapply record_notna; eauto. by_compute. }
  split.
  - rewrite length_fmap, Hperm. cbn [summary departamentos_detectados]. unfold nunique.
    rewrite <- (omap_fmap key (λ r : Row, r "DEPARTAMENTO")). fold col.
    rewrite <- (length_omap_Some key (unique_from [] col)).
    + apply Permutation_length, NoDup_Permutation.
      * apply unique_from_NoDup.
      * apply NoDup_remove_dups.
      * intros k. rewrite elem_of_remove_dups. split.
        -- intros (u & Hu%unique_from_subseteq & Hk)%list_elem_of_omap.
           apply list_elem_of_omap. by exists u.
        -- intros Hk. by destruct (unique_from_cover [] col k Hk) as [?%elem_of_nil|?].
    + intros u Hu%unique_from_subseteq. destruct (key u) eqn:Hk; [done|].
      apply key_None in Hk. rewrite Hcol in Hk; done.
  - intros o (d & -> & Hd)%list_elem_of_fmap Ht Hall. cbn [value] in *.
    rewrite Hperm in Hd. apply unique_from_subseteq in Hd.
    pose proof (Hcol d Hd) as Hna. destruct (key d) as [k|] eqn:Hk;
      [|apply key_None in Hk; congruence].
    apply list_elem_of_fmap in Hd as (r & -> & Hr).
    exists k, (length (filter (λ r, key (r "DEPARTAMENTO") = Some k) (rows out))).
    assert (Hpos : (0 < length (filter (λ r, key (r "DEPARTAMENTO") = Some k) (rows out)))%nat).
    { assert (Hin : r ∈ filter (λ r, key (r "DEPARTAMENTO") = Some k) (rows out))
        by (by apply list_elem_of_filter).
      destruct (filter _ (rows out)); [by apply elem_of_nil in Hin|simpl; lia]. }
    split; [done|]. rewrite (map_fig_department out _ k) by done.
    rewrite decide_False; [done|lia].
Qed.
End Dropdown.

(** ** The age-group labeller on stripped texts *)




(** ** The labels of a loaded table *)


Section Labels.
Context `{NumericText}.

End Labels.

(** ** The script on the sample tables *)

#[local] Existing Instance sample_text.

(** The script runs to its end on the sample tables. *)
Lemma sample_runs : is_Some (df nofetal_3 divipola_2 codes_2).
Proof. by_compute. Qed.

(** C1, as stated, fails: with a geography table in which two lines share
    the key (5, 1), the three rows of the mortality table give five
    records, the first two rows being joined twice. *)
Lemma records_per_row_fails :
  length (rows nofetal_3) = 3%nat ∧
  cells ["COD_DEPARTAMENTO_STR"; "COD_MUNICIPIO_STR"; "MES_NUM"; "MUNICIPIO"]
    <$> df nofetal_3 divipola_dup codes_2
  = Some [ [Str "5"; Str "1"; Int 1; Str "MEDELLIN"];
           [Str "5"; Str "1"; Int 1; Str "MEDELLÍN"];
           [Str "5"; Str "1"; Int 13; Str "MEDELLIN"];
           [Str "5"; Str "1"; Int 13; Str "MEDELLÍN"];
           [Str "8"; Str "1"; Int 0; Str "Municipio desconocido"] ].
Proof. split; vm_compute; reflexivity. Qed.

Lemma records_per_row_witness :
  ∃ out,
    df nofetal_3 divipola_2 codes_2 = Some out ∧
    ∃ base,
      df_base nofetal_3 = Some base ∧
      Forall2 (normalised nofetal_3) (rows nofetal_3) (rows base) ∧
      cells canonical_base out
      = (r ← rows base;
         replicate (geo_fanout divipola_2 r
                    * cause_fanout codes_2 r)
                   (r <$> canonical_base)) ∧
      (∀ r, (1 ≤ geo_fanout divipola_2 r)%nat ∧
            (1 ≤ cause_fanout codes_2 r)%nat) ∧
      ((∀ r, r ∈ rows base →
             geo_fanout divipola_2 r = 1%nat ∧
             cause_fanout codes_2 r = 1%nat) →
       cells canonical_base out = cells canonical_base base ∧
       length (rows out) = length (rows nofetal_3)).
Proof.
  destruct sample_runs as [out Hout]. exists out. split; [exact Hout|].
  apply (records_per_row nofetal_3 divipola_2 codes_2 out Hout).
Defined.

(** A record of the sample run. *)
Lemma sample_record :
  ∃ out r, df nofetal_3 divipola_2 codes_2 = Some out ∧ r ∈ rows out.
Proof.
  assert (Hr : is_Some (d ← df nofetal_3 divipola_2 codes_2; rows d !! 0%nat))
    by by_compute.
  destruct Hr as [r Hr].
  destruct (df nofetal_3 divipola_2 codes_2) as [out|]; [|done]. simpl in Hr.
  exists out, r. split; [done|]. by eapply list_elem_of_lookup_2.
Qed.






(** ** The callback, the files and the dropdown on the sample tables *)

Lemma update_all_one_department_witness :
  (truthy (PVal (Str "ANTIOQUIA")) = true ∧ py_eq (Str "_ALL_") (Str "ANTIOQUIA") = false ∧
   key (Str "ANTIOQUIA") = Some (KStr "ANTIOQUIA")) ∧
  map_fig (update_all dashboard_3 (PVal (Str "ANTIOQUIA"))) = [([KStr "ANTIOQUIA"], 2%nat)] ∧
  ([KStr "ANTIOQUIA"], 2%nat) ∈ map_fig (update_all dashboard_3 ALL).
Proof.
  split; [by split_and!|].
  destruct (update_all_one_department dashboard_3 (Str "ANTIOQUIA") (KStr "ANTIOQUIA")
              eq_refl eq_refl eq_refl) as [Hone Hall].
  split; [exact Hone|]. apply Hall. vm_compute. lia.
Defined.

Lemma update_all_totals_witness :
  ∃ out,
    df nofetal_3 divipola_2 codes_2 = Some out ∧
    ∀ v,
      total (map_fig (update_all out v)) = length (rows (dff out v)) ∧
      total (fig_mes (update_all out v)) = length (rows (dff out v)) ∧
      total (fig_stack (update_all out v)) = length (rows (dff out v)) ∧
      total (fig_hist (update_all out v)) = length (rows (dff out v)) ∧
      (total (fig_homicidios (update_all out v)) ≤ length (rows (dff out v)))%nat ∧
      (total (fig_low10 (update_all out v)) ≤ length (rows (dff out v)))%nat ∧
      (total (table_top_causas (update_all out v)) ≤ length (rows (dff out v)))%nat.
Proof.
  destruct sample_runs as [out Hout]. exists out. split; [exact Hout|].
  intros v. apply (update_all_totals nofetal_3 divipola_2 codes_2 out v Hout).
Defined.

Lemma fig_hist_labels_witness :
  ∃ out,
    df nofetal_3 divipola_2 codes_2 = Some out ∧
    ∀ v,
      (length (fig_hist (update_all out v)) ≤ 12)%nat ∧
      ∀ k n, (k, n) ∈ fig_hist (update_all out v) →
             ∃ l, k = [KStr l] ∧ l ∈ "Sin info" :: age_labels.
Proof.
  destruct sample_runs as [out Hout]. exists out. split; [exact Hout|].
  intros v. apply (fig_hist_labels nofetal_3 divipola_2 codes_2 out v Hout).
Defined.


Lemma geography_of_record_witness :
  (DIV_cod_depto divipola_2 = Some "COD_DEPARTAMENTO" ∧
   DIV_cod_mpio divipola_2 = Some "COD_MUNICIPIO" ∧
   DIV_depto divipola_2 = Some "DEPARTAMENTO" ∧ DIV_mpio divipola_2 = Some "MUNICIPIO" ∧
   ("DEPARTAMENTO" ∉ columns nofetal_3) ∧ ("MUNICIPIO" ∉ columns nofetal_3)) ∧
  ∃ out r,
    df nofetal_3 divipola_2 codes_2 = Some out ∧ r ∈ rows out ∧
    ((∃ x0, x0 ∈ rows divipola_2 ∧
        Str (strip (astype_str (x0 "COD_DEPARTAMENTO"))) = r "COD_DEPARTAMENTO_STR" ∧
        Str (strip (astype_str (x0 "COD_MUNICIPIO"))) = r "COD_MUNICIPIO_STR" ∧
        (is_text (x0 "DEPARTAMENTO") = true ∨ isna (x0 "DEPARTAMENTO") = true →
         r "DEPARTAMENTO" = fillna (Str "Departamento desconocido") (x0 "DEPARTAMENTO")) ∧
        (is_text (x0 "MUNICIPIO") = true ∨ isna (x0 "MUNICIPIO") = true →
         r "MUNICIPIO" = fillna (Str "Municipio desconocido") (x0 "MUNICIPIO"))) ∨
     ((∀ x0, x0 ∈ rows divipola_2 →
          ¬ (Str (strip (astype_str (x0 "COD_DEPARTAMENTO"))) = r "COD_DEPARTAMENTO_STR" ∧
             Str (strip (astype_str (x0 "COD_MUNICIPIO"))) = r "COD_MUNICIPIO_STR")) ∧
      r "DEPARTAMENTO" = Str "Departamento desconocido" ∧
      r "MUNICIPIO" = Str "Municipio desconocido")).
Proof.
  assert (Hd : "DEPARTAMENTO" ∉ columns nofetal_3) by by_compute.
  assert (Hm : "MUNICIPIO" ∉ columns nofetal_3) by by_compute.
  split; [by split_and!|].
  destruct sample_record as (out & r & Hout & Hr). exists out, r.
  split; [exact Hout|]. split; [exact Hr|].
  apply (geography_of_record nofetal_3 divipola_2 codes_2 out
           "COD_DEPARTAMENTO" "COD_MUNICIPIO" "DEPARTAMENTO" "MUNICIPIO"
           Hout eq_refl eq_refl eq_refl eq_refl Hd Hm r Hr).
Defined.


Lemma df_stops_on_infinite_month_witness :
  rows nofetal_inf = [row_of ["MES"] [Flt (S754_infinity false)]] ∧
  df nofetal_inf divipola_2 codes_2 = None.
Proof.
  split; [reflexivity|].
  apply (df_stops_on_infinite_month nofetal_inf divipola_2 codes_2
           (row_of ["MES"] [Flt (S754_infinity false)]) false).
  - by_compute.
  - constructor.
  - reflexivity.
Defined.

Lemma missing_mortality_file_witness :
  (∃ line, safe_read_excel FN_NOFETAL Absent = (no_sheet, [line])) ∧
  ∃ out,
    df (load FN_NOFETAL Absent) (load FN_DIVIPOLA (Workbook divipola_sheet))
       (load FN_CODES (Unreadable "File is not a zip file")) = Some out ∧
    canonical_fields ⊆ columns out ∧ rows out = [] ∧
    summary out = {| registros_totales := 0; departamentos_detectados := 0;
                     municipios_detectados := 0 |} ∧
    dropdown_options out = Some [ {| label := Str "Todos"; value := Str "_ALL_" |} ] ∧
    ∀ v, update_all out v
         = {| geo_msg := ""; map_fig := []; fig_mes := []; fig_homicidios := [];
              fig_low10 := []; fig_stack := []; fig_hist := [];
              table_top_causas := [] |}.
Proof.
  apply (missing_mortality_file FN_NOFETAL FN_DIVIPOLA FN_CODES Absent
           (Workbook divipola_sheet) (Unreadable "File is not a zip file")).
  - left. reflexivity.
  - by_compute.
  - by_compute.
Defined.

(** The dropdown of the sample run. *)
Lemma sample_options :
  ∃ out opts, df nofetal_3 divipola_2 codes_2 = Some out ∧ dept_options out = Some opts.
Proof.
  assert (Ho : is_Some (d ← df nofetal_3 divipola_2 codes_2; dept_options d)) by by_compute.
  destruct Ho as [opts Ho].
  destruct (df nofetal_3 divipola_2 codes_2) as [out|]; [|done]. by exists out, opts.
Qed.

Lemma dropdown_options_live_witness :
  ∃ out opts,
    df nofetal_3 divipola_2 codes_2 = Some out ∧ dept_options out = Some opts ∧
    length opts = departamentos_detectados (summary out) ∧
    ∀ o, o ∈ opts →
      truthy (PVal (value o)) = true → py_eq (Str "_ALL_") (value o) = false →
      ∃ k n, (0 < n)%nat ∧ map_fig (update_all out (PVal (value o))) = [([k], n)].
Proof.
  destruct sample_options as (out & opts & Hout & Hopts). exists out, opts.
  split; [exact Hout|]. split; [exact Hopts|].
  apply (dropdown_options_live nofetal_3 divipola_2 codes_2 out opts Hout Hopts).
Defined.

(** A bar of the sample run. *)
Lemma sample_bar :
  ∃ out, df nofetal_3 divipola_2 codes_2 = Some out ∧
         ([KStr "ANTIOQUIA"], 2%nat) ∈ map_fig (update_all out ALL).
Proof.
  assert (Ho : is_Some (d ← df nofetal_3 divipola_2 codes_2;
                        if decide (([KStr "ANTIOQUIA"], 2%nat) ∈ map_fig (update_all d ALL))
                        then Some d else None)) by by_compute.
  destruct Ho as [out Ho].
  destruct (df nofetal_3 divipola_2 codes_2) as [d|]; [|done].
  simpl in Ho. case_decide; [|done]. by exists d.
Qed.

Lemma fig_stack_adds_up_witness :
  ∃ out,
    df nofetal_3 divipola_2 codes_2 = Some out ∧
    ([KStr "ANTIOQUIA"], 2%nat) ∈ map_fig (update_all out ALL) ∧
    total (filter (λ kn, take 1 kn.1 = [KStr "ANTIOQUIA"]) (fig_stack (update_all out ALL)))
    = 2%nat.
Proof.
  destruct sample_bar as (out & Hout & Hbar). exists out.
  split; [exact Hout|]. split; [exact Hbar|].
  apply (fig_stack_adds_up nofetal_3 divipola_2 codes_2 out ALL [KStr "ANTIOQUIA"] 2 Hout Hbar).
Defined.
